(** * Aetos Orchestrator: lifecycle state machine, listing aggregate,
      use cases and the scraper polling coordinator.

    Shallow embedding of
    - src/domain/enums/listing_state.py
    - src/domain/state_machine/lifecycle_state_machine.py
    - src/domain/entities/product_listing.py
    - src/domain/events/domain_events.py
    - src/application/use_cases/create_listings_from_scraper.py
    - src/application/use_cases/transition_listing_state.py
    - src/application/use_cases/get_listing_history.py
    - src/infrastructure/messaging/rabbitmq_publisher.py
    - src/infrastructure/database/repositories/listing_repository.py
    - src/infrastructure/database/repositories/state_history_repository_impl.py
    - src/infrastructure/database/repositories/search_rotation_repository.py
    - src/infrastructure/database/connection.py (the session's commit)
    - src/infrastructure/external_services/scraper_coordinator.py (trigger_scrape)
    - src/api/routes/webhooks.py (scraper_job_complete)
    - src/api/routes/admin.py (transition_listing)
    - function_app.py (poll_scraper_and_process, process_scraper_matches,
      trigger_scrape, scheduled_scrape)

    Conventions: UUIDs are [nat]; datetimes are [Z] (the value read from
    [_utcnow()] is passed in explicitly as [now]); Decimals are [Z];
    Python exceptions are the constructors of [Exn]. *)

From stdpp Require Import base list gmap strings sorting.
From Stdlib Require Import ZArith Lia.



(* ------------------------------------------------------------------ *)
(** ** ListingState (src/domain/enums/listing_state.py) *)

Inductive ListingState :=
  | FOUND | MESSAGING | NEGOTIATING | PURCHASED
  | RECEIVED | LISTED | SOLD | CANCELLED.

#[global] Instance ListingState_eq_dec : EqDecision ListingState.
Proof. solve_decision. Defined.

Definition all_states : list ListingState :=
  [FOUND; MESSAGING; NEGOTIATING; PURCHASED; RECEIVED; LISTED; SOLD; CANCELLED].

(** [is_terminal]: [self in (ListingState.SOLD, ListingState.CANCELLED)]. *)
Definition is_terminal (s : ListingState) : bool :=
  bool_decide (s ∈ [SOLD; CANCELLED]).

(* ------------------------------------------------------------------ *)
(** ** Lifecycle state machine (lifecycle_state_machine.py) *)

(** A Python dict literal as an association list, with [dict.get(k, default)]. *)
Fixpoint dict_get {K V} `{EqDecision K} (d : list (K * V)) (k : K) (dflt : V) : V :=
  match d with
  | [] => dflt
  | (k', v) :: d' => if decide (k = k') then v else dict_get d' k dflt
  end.

(** [VALID_TRANSITIONS]; a [frozenset] is a duplicate-free list. *)
Definition VALID_TRANSITIONS : list (ListingState * list ListingState) :=
  [ (FOUND, [MESSAGING; CANCELLED]);
    (MESSAGING, [NEGOTIATING; CANCELLED]);
    (NEGOTIATING, [PURCHASED; CANCELLED]);
    (PURCHASED, [RECEIVED; CANCELLED]);
    (RECEIVED, [LISTED]);
    (LISTED, [SOLD]);
    (SOLD, []);
    (CANCELLED, []) ].

Definition can_transition (from_state to_state : ListingState) : bool :=
  if is_terminal from_state then false
  else bool_decide (to_state ∈ dict_get VALID_TRANSITIONS from_state []).

Definition get_allowed_transitions (from_state : ListingState) : list ListingState :=
  dict_get VALID_TRANSITIONS from_state [].

(** Exceptions raised by the modelled code. *)
Inductive Exn :=
  | InvalidStateTransitionError (from_state to_state : ListingState)
  | ListingNotFoundError (listing_id : nat)
  | PortError.                       (** any exception raised by a port *)

(** [validate_transition]: [None] is the no-op, [Some e] is [raise e]. *)
Definition validate_transition (from_state to_state : ListingState) : option Exn :=
  if can_transition from_state to_state then None
  else Some (InvalidStateTransitionError from_state to_state).

(** The allowed-set table as the spec writes it (section 4.1), to compare
    with [VALID_TRANSITIONS]. *)
Definition spec_allowed (s : ListingState) : list ListingState :=
  match s with
  | FOUND => [MESSAGING; CANCELLED]
  | MESSAGING => [NEGOTIATING; CANCELLED]
  | NEGOTIATING => [PURCHASED; CANCELLED]
  | PURCHASED => [RECEIVED; CANCELLED]
  | RECEIVED => [LISTED]
  | LISTED => [SOLD]
  | SOLD => []
  | CANCELLED => []
  end.

(* ------------------------------------------------------------------ *)
(** ** Domain events (domain_events.py)

    [event_id] and [occurred_at] (a fresh uuid4 and the clock) are left out:
    no claim below reads them. *)

Inductive DomainEvent :=
  | ListingCreatedEvent (listing_id : nat) (product_id : Z) (scraper_job_id : nat)
      (brand model marketplace_url : string)
      (asking_price confidence_score estimated_profit : Z)
  | ListingStateChangedEvent (listing_id : nat) (from_state : option ListingState)
      (to_state : ListingState) (triggered_by : string)
  | ScraperJobCreatedEvent (job_id : nat) (brand search : string).

Definition event_listing_id (e : DomainEvent) : option nat :=
  match e with
  | ListingCreatedEvent lid _ _ _ _ _ _ _ _ => Some lid
  | ListingStateChangedEvent lid _ _ _ => Some lid
  | ScraperJobCreatedEvent _ _ _ => None
  end.

Definition is_state_changed (e : DomainEvent) : bool :=
  match e with ListingStateChangedEvent _ _ _ _ => true | _ => false end.

(* ------------------------------------------------------------------ *)
(** ** ProductListing (product_listing.py)

    The deal, eBay and profit fields ([negotiated_price] ... [final_profit])
    are only ever read and written by later phases, not by any operation
    modelled here; they are left out. *)

Record ProductListing := mkListing {
  id : nat;
  product_id : Z;
  marketplace_url : string;
  title : string;
  asking_price : Z;
  state : ListingState;
  created_at : Z;
  updated_at : Z;
  state_changed_at : Z;
  found_at : Z;
  messaged_at : option Z;
  negotiating_at : option Z;
  purchased_at : option Z;
  received_at : option Z;
  listed_at : option Z;
  sold_at : option Z;
  cancelled_at : option Z;
  scraper_job_id : nat;
  brand : string;
  model : string;
  confidence_score : Z;
  estimated_profit : Z;
  error_message : option string;
  error_occurred_at : option Z;
  _events : list DomainEvent
}.

(** The attribute names of [_apply_lifecycle_timestamp]'s mapping. *)
Inductive LifecycleAttr :=
  | messaged_at_attr | negotiating_at_attr | purchased_at_attr | received_at_attr
  | listed_at_attr | sold_at_attr | cancelled_at_attr.

#[global] Instance LifecycleAttr_eq_dec : EqDecision LifecycleAttr.
Proof. solve_decision. Defined.

Definition all_attrs : list LifecycleAttr :=
  [messaged_at_attr; negotiating_at_attr; purchased_at_attr; received_at_attr;
   listed_at_attr; sold_at_attr; cancelled_at_attr].

(** [getattr(self, attr)] *)
Definition get_ts (a : LifecycleAttr) (l : ProductListing) : option Z :=
  match a with
  | messaged_at_attr => messaged_at l
  | negotiating_at_attr => negotiating_at l
  | purchased_at_attr => purchased_at l
  | received_at_attr => received_at l
  | listed_at_attr => listed_at l
  | sold_at_attr => sold_at l
  | cancelled_at_attr => cancelled_at l
  end.

(** [setattr(self, attr, v)] *)
Definition set_ts (a : LifecycleAttr) (v : option Z) (l : ProductListing) : ProductListing :=
  let 'mkListing i p u t ap st ca ua sca fa ma na pa ra la sa cna j b m c ep em eo ev := l in
  match a with
  | messaged_at_attr => mkListing i p u t ap st ca ua sca fa v na pa ra la sa cna j b m c ep em eo ev
  | negotiating_at_attr => mkListing i p u t ap st ca ua sca fa ma v pa ra la sa cna j b m c ep em eo ev
  | purchased_at_attr => mkListing i p u t ap st ca ua sca fa ma na v ra la sa cna j b m c ep em eo ev
  | received_at_attr => mkListing i p u t ap st ca ua sca fa ma na pa v la sa cna j b m c ep em eo ev
  | listed_at_attr => mkListing i p u t ap st ca ua sca fa ma na pa ra v sa cna j b m c ep em eo ev
  | sold_at_attr => mkListing i p u t ap st ca ua sca fa ma na pa ra la v cna j b m c ep em eo ev
  | cancelled_at_attr => mkListing i p u t ap st ca ua sca fa ma na pa ra la sa v j b m c ep em eo ev
  end.

Definition set_state_fields (st : ListingState) (now : Z) (l : ProductListing) : ProductListing :=
  let 'mkListing i p u t ap _ ca _ _ fa ma na pa ra la sa cna j b m c ep em eo ev := l in
  mkListing i p u t ap st ca now now fa ma na pa ra la sa cna j b m c ep em eo ev.

Definition set_events (evs : list DomainEvent) (l : ProductListing) : ProductListing :=
  let 'mkListing i p u t ap st ca ua sca fa ma na pa ra la sa cna j b m c ep em eo _ := l in
  mkListing i p u t ap st ca ua sca fa ma na pa ra la sa cna j b m c ep em eo evs.

Definition set_error (msg : string) (now : Z) (l : ProductListing) : ProductListing :=
  let 'mkListing i p u t ap st ca _ sca fa ma na pa ra la sa cna j b m c ep _ _ ev := l in
  mkListing i p u t ap st ca now sca fa ma na pa ra la sa cna j b m c ep (Some msg) (Some now) ev.

(** A small state-and-exception monad: an exception leaves the state as it
    was at the point of the [raise], as Python does. *)
Inductive result (A : Type) := Ok (a : A) | Err (e : Exn).
Arguments Ok {A} a.
Arguments Err {A} e.

Definition ST (S A : Type) := S -> result A * S.

Definition st_ret {S A} (a : A) : ST S A := fun s => (Ok a, s).
Definition st_bind {S A B} (m : ST S A) (k : A -> ST S B) : ST S B :=
  fun s => match m s with
           | (Ok a, s') => k a s'
           | (Err e, s') => (Err e, s')
           end.
Definition st_raise {S A} (e : Exn) : ST S A := fun s => (Err e, s).
Definition st_get {S} : ST S S := fun s => (Ok s, s).
Definition st_put {S} (s : S) : ST S unit := fun _ => (Ok tt, s).
Definition st_modify {S} (f : S -> S) : ST S unit := fun s => (Ok tt, f s).

#[global] Instance ST_ret {S} : MRet (ST S) := fun A a => st_ret a.
#[global] Instance ST_bind {S} : MBind (ST S) := fun A B k m => st_bind m k.

(** [ProductListing.create_from_scraper_match]: [fresh_id] is [uuid4()] and
    [now] is [_utcnow()] (all default timestamps read the same clock). *)
Definition create_from_scraper_match (fresh_id : nat) (now : Z)
  (product_id : Z) (marketplace_url title : string) (asking_price : Z)
  (scraper_job_id : nat) (brand model : string)
  (confidence_score estimated_profit : Z) : ProductListing :=
  mkListing fresh_id product_id marketplace_url title asking_price FOUND
    now now now now None None None None None None None
    scraper_job_id brand model confidence_score estimated_profit None None
    [ListingCreatedEvent fresh_id product_id scraper_job_id brand model
       marketplace_url asking_price confidence_score estimated_profit].

(** The [mapping] of [_apply_lifecycle_timestamp]; [mapping.get(state)]. *)
Definition lifecycle_attr (s : ListingState) : option LifecycleAttr :=
  match s with
  | FOUND => None
  | MESSAGING => Some messaged_at_attr
  | NEGOTIATING => Some negotiating_at_attr
  | PURCHASED => Some purchased_at_attr
  | RECEIVED => Some received_at_attr
  | LISTED => Some listed_at_attr
  | SOLD => Some sold_at_attr
  | CANCELLED => Some cancelled_at_attr
  end.

Definition _apply_lifecycle_timestamp (s : ListingState) (now : Z) : ST ProductListing unit :=
  match lifecycle_attr s with
  | Some attr => st_modify (set_ts attr (Some now))
  | None => st_ret tt
  end.

Definition transition_to (new_state : ListingState) (triggered_by : string) (now : Z)
  : ST ProductListing unit :=
  self ← st_get;
  match validate_transition (state self) new_state with
  | Some e => st_raise e
  | None =>
      let old_state := state self in
      st_modify (set_state_fields new_state now);;
      _apply_lifecycle_timestamp new_state now;;
      st_modify (fun l => set_events (_events l ++
        [ListingStateChangedEvent (id l) (Some old_state) new_state triggered_by]) l)
  end.

Definition record_error (message : string) (now : Z) : ST ProductListing unit :=
  st_modify (set_error message now).

Definition collect_events : ST ProductListing (list DomainEvent) :=
  self ← st_get;
  let events := _events self in
  st_modify (set_events []);;
  st_ret events.

(** Aggregates reachable from the creation factory through the aggregate's
    own operations. *)
Inductive reachable : ProductListing -> Prop :=
  | reach_create fid now pid url ttl price job br md conf prof :
      reachable (create_from_scraper_match fid now pid url ttl price job br md conf prof)
  | reach_transition l s tb now r l' :
      reachable l -> transition_to s tb now l = (r, l') -> reachable l'
  | reach_record_error l msg now :
      reachable l -> reachable (snd (record_error msg now l))
  | reach_collect l :
      reachable l -> reachable (snd (collect_events l)).

(** The state a lifecycle attribute belongs to (inverse of [lifecycle_attr]). *)
Definition attr_state (a : LifecycleAttr) : ListingState :=
  match a with
  | messaged_at_attr => MESSAGING
  | negotiating_at_attr => NEGOTIATING
  | purchased_at_attr => PURCHASED
  | received_at_attr => RECEIVED
  | listed_at_attr => LISTED
  | sold_at_attr => SOLD
  | cancelled_at_attr => CANCELLED
  end.

(** Position of a state in the transition DAG: every allowed transition
    strictly increases it. *)
Definition rank (s : ListingState) : nat :=
  match s with
  | FOUND => 0 | MESSAGING => 1 | NEGOTIATING => 2 | PURCHASED => 3
  | RECEIVED => 4 | LISTED => 5 | SOLD => 6 | CANCELLED => 7
  end.

(** Claim C1 read literally, used to exhibit where it fails: either success
    with exactly one previously-null lifecycle timestamp newly set and one
    event appended, or failure leaving state, timestamps and buffer as
    they were. *)
Definition transition_spec_literal (l : ProductListing) (s : ListingState)
    (tb : string) (now : Z) : Prop :=
  match transition_to s tb now l with
  | (Ok _, l') =>
      state l' = s /\
      (exists a, get_ts a l = None /\ get_ts a l' <> None /\
                 forall b, b <> a -> get_ts b l' = get_ts b l) /\
      (exists e, _events l' = _events l ++ [e] /\ is_state_changed e = true)
  | (Err e, l') =>
      state l' = state l /\ (forall b, get_ts b l' = get_ts b l) /\
      _events l' = _events l
  end.

(** An aggregate value whose [messaged_at] is already set while it is still
    FOUND (e.g. as loaded from a tampered row). *)
Definition premessaged_listing : ProductListing :=
  set_ts messaged_at_attr (Some 5%Z)
    (set_events [] (create_from_scraper_match 1 0 230 "url"%string "Sony A6400"%string 400 7
                      "Sony"%string "a6400"%string 95 100)).

(* ------------------------------------------------------------------ *)
(** ** Ports and the application world

    The repositories, the history store and the event bus, as one world
    threaded through the use cases. Whether a port call raises is decided
    by oracles on its arguments, bound as section variables below. *)

Inductive MetaVal := MStr (s : string) | MUuid (u : nat).

(** [StateHistoryRecord] (its own [id] is left out). *)
Record StateHistoryRecord := mkHistory {
  h_listing_id : nat;
  h_from_state : option ListingState;
  h_to_state : ListingState;
  h_transitioned_at : Z;
  h_triggered_by : string;
  h_metadata : list (string * MetaVal)
}.

Record World := mkWorld {
  listings : gmap nat ProductListing;      (** ListingRepository *)
  history : list StateHistoryRecord;       (** StateHistoryRepository *)
  published : list DomainEvent;            (** EventPublisher *)
  next_uuid : nat;                         (** uuid4() supply *)
  clock : Z                                (** _utcnow() *)
}.

Definition set_listings (m : gmap nat ProductListing) (w : World) : World :=
  mkWorld m (history w) (published w) (next_uuid w) (clock w).
Definition set_history (h : list StateHistoryRecord) (w : World) : World :=
  mkWorld (listings w) h (published w) (next_uuid w) (clock w).
Definition set_published (p : list DomainEvent) (w : World) : World :=
  mkWorld (listings w) (history w) p (next_uuid w) (clock w).
Definition bump_uuid (w : World) : World :=
  mkWorld (listings w) (history w) (published w) (S (next_uuid w)) (clock w).

Definition st_try {S A} (m : ST S A) (h : Exn -> ST S A) : ST S A :=
  fun s => match m s with
           | (Ok a, s') => (Ok a, s')
           | (Err e, s') => h e s'
           end.

(** Run an aggregate method on a local aggregate object; an exception
    propagates. *)
Definition on_listing {A} (m : ST ProductListing A) (l : ProductListing)
  : ST World (A * ProductListing) :=
  match m l with
  | (Ok a, l') => st_ret (a, l')
  | (Err e, _) => st_raise e
  end.

Section Ports.

Variable listing_save_fails : ProductListing -> bool.
Variable history_save_fails : nat -> ListingState -> bool.
Variable publish_fails : DomainEvent -> bool.

Definition uuid4 : ST World nat :=
  w ← st_get; st_put (bump_uuid w);; st_ret (next_uuid w).

Definition utcnow : ST World Z := w ← st_get; st_ret (clock w).

(** [ListingRepository.save]: upsert by identity. *)
Definition listing_repo_save (l : ProductListing) : ST World unit :=
  if listing_save_fails l then st_raise PortError
  else st_modify (fun w => set_listings (<[id l := l]> (listings w)) w).

Definition listing_repo_get_by_id (lid : nat) : ST World (option ProductListing) :=
  w ← st_get; st_ret (listings w !! lid).

(** [StateHistoryRepository.save]: appends one record. *)
Definition history_repo_save (listing_id : nat) (from_state : option ListingState)
    (to_state : ListingState) (triggered_by : string)
    (metadata : list (string * MetaVal)) : ST World unit :=
  if history_save_fails listing_id to_state then st_raise PortError
  else now ← utcnow;
       st_modify (fun w => set_history (history w ++
         [mkHistory listing_id from_state to_state now triggered_by metadata]) w).

Definition publish (e : DomainEvent) : ST World unit :=
  if publish_fails e then st_raise PortError
  else st_modify (fun w => set_published (published w ++ [e]) w).

(** [EventPublisher.publish_many]: sequential, no atomicity. *)
Fixpoint publish_many (events : list DomainEvent) : ST World unit :=
  match events with
  | [] => st_ret tt
  | e :: es => publish e;; publish_many es
  end.

(* ------------------------------------------------------------------ *)
(** ** CreateListingsFromScraper (create_listings_from_scraper.py) *)

Record ScraperMatch := mkMatch {
  url : string; m_title : string; price : Z; m_product_id : Z;
  m_brand : string; m_model : string; confidence : Z; potential_profit : Z
}.

Record CreateListingsFromScraperInput := mkCreateInput {
  ci_job_id : nat; ci_brand : string; ci_matches : list ScraperMatch
}.

Record CreateListingsFromScraperOutput := mkCreateOutput {
  created_listing_ids : list nat; skipped_count : nat
}.

(** The body of the [try] block for one match. *)
Definition create_one (inp : CreateListingsFromScraperInput) (m : ScraperMatch) : ST World nat :=
  fid ← uuid4;
  now ← utcnow;
  let listing := create_from_scraper_match fid now (m_product_id m) (url m)
                   (m_title m) (price m) (ci_job_id inp) (m_brand m) (m_model m)
                   (confidence m) (potential_profit m) in
  listing_repo_save listing;;
  history_repo_save (id listing) None FOUND "scraper_webhook"
    [("job_id", MUuid (ci_job_id inp)); ("brand", MStr (ci_brand inp))];;
  '(events, _) ← on_listing collect_events listing;
  publish_many events;;
  st_ret (id listing).

Fixpoint execute_matches (inp : CreateListingsFromScraperInput) (ms : list ScraperMatch)
    (created_ids : list nat) (skipped : nat) : ST World (list nat * nat) :=
  match ms with
  | [] => st_ret (created_ids, skipped)
  | m :: ms' =>
      r ← st_try (lid ← create_one inp m; st_ret (Some lid)) (fun _ => st_ret None);
      match r with
      | Some lid => execute_matches inp ms' (created_ids ++ [lid]) skipped
      | None => execute_matches inp ms' created_ids (S skipped)
      end
  end.

Definition create_listings_execute (inp : CreateListingsFromScraperInput)
  : ST World CreateListingsFromScraperOutput :=
  '(created_ids, skipped) ← execute_matches inp (ci_matches inp) [] 0;
  st_ret (mkCreateOutput created_ids skipped).

(** The aggregate built for a match with identity [u] at time [now]. *)
Definition built_listing (inp : CreateListingsFromScraperInput) (u : nat) (now : Z)
    (m : ScraperMatch) : ProductListing :=
  create_from_scraper_match u now (m_product_id m) (url m) (m_title m) (price m)
    (ci_job_id inp) (m_brand m) (m_model m) (confidence m) (potential_profit m).

(** Whether every port call for that match succeeds. *)
Definition match_ok (inp : CreateListingsFromScraperInput) (u : nat) (now : Z)
    (m : ScraperMatch) : bool :=
  let l := built_listing inp u now m in
  negb (listing_save_fails l) && negb (history_save_fails u FOUND) &&
  forallb (fun e => negb (publish_fails e)) (_events l).

(** Identities of the matches whose processing succeeds, numbering the
    matches' identities from [u]. *)
Fixpoint ok_ids (inp : CreateListingsFromScraperInput) (u : nat) (now : Z)
    (ms : list ScraperMatch) : list nat :=
  match ms with
  | [] => []
  | m :: ms' => (if match_ok inp u now m then [u] else []) ++ ok_ids inp (S u) now ms'
  end.

(* ------------------------------------------------------------------ *)
(** ** TransitionListingState (transition_listing_state.py) *)

Record TransitionListingStateInput := mkTransitionInput {
  ti_listing_id : nat; ti_to_state : ListingState; ti_triggered_by : string;
  ti_reason : option string
}.

Record TransitionListingStateOutput := mkTransitionOutput {
  to_listing_id : nat; to_from_state : ListingState; to_to_state : ListingState
}.

(** [if input_data.reason:]: [None] and the empty string are falsy. *)
Definition transition_metadata (inp : TransitionListingStateInput) : list (string * MetaVal) :=
  [("triggered_by", MStr (ti_triggered_by inp))] ++
  match ti_reason inp with
  | Some r => if decide (r = ""%string) then [] else [("reason", MStr r)]
  | None => []
  end.

Definition transition_execute (inp : TransitionListingStateInput)
  : ST World TransitionListingStateOutput :=
  lo ← listing_repo_get_by_id (ti_listing_id inp);
  match lo with
  | None => st_raise (ListingNotFoundError (ti_listing_id inp))
  | Some listing =>
      let from_state := state listing in
      now ← utcnow;
      '(_, listing) ← on_listing (transition_to (ti_to_state inp) (ti_triggered_by inp) now) listing;
      listing_repo_save listing;;
      history_repo_save (id listing) (Some from_state) (ti_to_state inp)
        (ti_triggered_by inp) (transition_metadata inp);;
      '(events, listing) ← on_listing collect_events listing;
      publish_many events;;
      st_ret (mkTransitionOutput (id listing) from_state (ti_to_state inp))
  end.

End Ports.

(* ------------------------------------------------------------------ *)
(** ** The polling coordinator (function_app.py, poll_scraper_and_process)

    What the loop does is recorded as a trace of effects. Ingesting is the
    call [process_scraper_matches(job_id, brand, matches)]; releasing is the
    call [container_manager.stop_container(...)], whose exceptions are
    swallowed where it is called, so a [StopContainer] effect is an
    attempted release whatever its result. *)

(** The payload of [coordinator.get_job_status(job_id)], as read by the
    loop: [status_data.get("status")] and
    [status_data.get("result", {}).get("matches", [])]. *)
Record StatusData := mkStatusData {
  sd_status : option string;
  sd_matches : list ScraperMatch
}.

Inductive PollEffect :=
  | Sleep                            (** await asyncio.sleep(180) *)
  | QueryStatus                      (** await coordinator.get_job_status(job_id) *)
  | Ingest (ms : list ScraperMatch)  (** await process_scraper_matches(...) *)
  | StopContainer                    (** await container_manager.stop_container(...) *)
  | LogUnknownStatus.                (** logging.warning(f"Unknown status ...") *)

Inductive PollOutcome :=
  | PollCompleted     (** return after "completed" *)
  | PollFailed        (** return after "failed" / "error" *)
  | PollTimedOut      (** loop exit at max_polls *)
  | PollOutOfFuel.    (** not a behaviour of the code: the fuel is never exhausted *)

Definition max_polls : nat := 40.

Definition status_is (sd : StatusData) (s : string) : bool :=
  bool_decide (sd_status sd = Some s).

Section Polling.

(** [get_job_status n]: the answer to the [n]-th status query, [None] when
    that call raises. [ingest_raises n]: whether [process_scraper_matches]
    raises when called after the [n]-th query. *)
Variable get_job_status : nat -> option StatusData.
Variable ingest_raises : nat -> bool.

(** One iteration of [while poll_count < max_polls] per unit of fuel;
    [call] counts the status queries made so far. *)
Fixpoint poll_loop (fuel poll_count call : nat) : list PollEffect * PollOutcome :=
  match fuel with
  | O => ([], PollOutOfFuel)
  | S fuel' =>
      if poll_count <? max_polls then
        let poll_count := poll_count + 1 in
        match get_job_status call with
        | None =>
            (* except Exception: poll_count += 1; continue *)
            let '(tr, o) := poll_loop fuel' (poll_count + 1) (S call) in
            ([Sleep; QueryStatus] ++ tr, o)
        | Some sd =>
            if status_is sd "completed" then
              match sd_matches sd with
              | [] => ([Sleep; QueryStatus; StopContainer], PollCompleted)
              | ms =>
                  if ingest_raises call then
                    let '(tr, o) := poll_loop fuel' (poll_count + 1) (S call) in
                    ([Sleep; QueryStatus; Ingest ms] ++ tr, o)
                  else ([Sleep; QueryStatus; Ingest ms; StopContainer], PollCompleted)
              end
            else if status_is sd "failed" || status_is sd "error" then
              ([Sleep; QueryStatus; StopContainer], PollFailed)
            else if status_is sd "pending" || status_is sd "running" then
              let '(tr, o) := poll_loop fuel' poll_count (S call) in
              ([Sleep; QueryStatus] ++ tr, o)
            else
              let '(tr, o) := poll_loop fuel' poll_count (S call) in
              ([Sleep; QueryStatus; LogUnknownStatus] ++ tr, o)
        end
      else ([StopContainer], PollTimedOut)
  end.

Definition poll_scraper_and_process : list PollEffect * PollOutcome :=
  poll_loop (S max_polls) 0 0.

End Polling.

Definition count_effect (p : PollEffect -> bool) (tr : list PollEffect) : nat :=
  length (filter (fun e => p e = true) tr).

Definition is_query (e : PollEffect) : bool := match e with QueryStatus => true | _ => false end.
Definition is_stop (e : PollEffect) : bool := match e with StopContainer => true | _ => false end.

Fixpoint ingest_calls (tr : list PollEffect) : list (list ScraperMatch) :=
  match tr with
  | [] => []
  | Ingest ms :: tr' => ms :: ingest_calls tr'
  | _ :: tr' => ingest_calls tr'
  end.

(** The three ways the spec sorts a status: completed, failed/error, and
    everything else (pending, running or unrecognised) which is retried. *)
Inductive StatusKind := KCompleted | KFailed | KRetry.

Definition classify (sd : StatusData) : StatusKind :=
  if status_is sd "completed" then KCompleted
  else if status_is sd "failed" || status_is sd "error" then KFailed
  else KRetry.

(** The first of the queries [c], ..., [c + n - 1] whose status is not
    retried, with its payload. *)
Fixpoint first_decisive (get_job_status : nat -> option StatusData) (c n : nat)
  : option (nat * StatusData) :=
  match n with
  | O => None
  | S n' =>
      match get_job_status c with
      | Some sd =>
          match classify sd with
          | KRetry => first_decisive get_job_status (S c) n'
          | _ => Some (c, sd)
          end
      | None => first_decisive get_job_status (S c) n'
      end
  end.

(** A status payload with the given status and match list. *)
Definition status_payload (s : string) (ms : list ScraperMatch) : StatusData :=
  mkStatusData (Some s) ms.

Definition sample_match : ScraperMatch :=
  mkMatch "https://fb.com/1" "Sony A6400" 400 230 "Sony" "a6400" 95 100.

(** The status sequence [running, running, completed] of the spec's test
    plan, with one match. *)
Definition running_then_completed (k : nat) : option StatusData :=
  Some (if k <? 2 then status_payload "running" [sample_match]
        else status_payload "completed" [sample_match]).

(* ------------------------------------------------------------------ *)
(** ** Callers of the aggregate and views of its event buffer *)

(** A caller applying several [transition_to] calls in sequence, each with
    its target, actor and clock reading. *)
Fixpoint run_transitions (steps : list (ListingState * string * Z)) : ST ProductListing unit :=
  match steps with
  | [] => st_ret tt
  | (s, tb, now) :: rest => transition_to s tb now;; run_transitions rest
  end.

(** The (from_state, to_state) pairs of the ListingStateChangedEvents of a
    buffer, in order. *)
Fixpoint state_changes (evs : list DomainEvent) : list (option ListingState * ListingState) :=
  match evs with
  | [] => []
  | ListingStateChangedEvent _ f t _ :: evs' => (f, t) :: state_changes evs'
  | _ :: evs' => state_changes evs'
  end.

(** Replaying recorded state changes from state [s]: each change must start
    where the previous one ended and be an allowed transition; the result is
    the state reached. *)
Fixpoint replay (s : ListingState) (cs : list (option ListingState * ListingState))
  : option ListingState :=
  match cs with
  | [] => Some s
  | (Some f, t) :: cs' =>
      if decide (f = s) then (if can_transition f t then replay t cs' else None) else None
  | (None, _) :: _ => None
  end.

Definition is_created_event (e : DomainEvent) : bool :=
  match e with ListingCreatedEvent _ _ _ _ _ _ _ _ _ => true | _ => false end.

(* ------------------------------------------------------------------ *)
(** ** RabbitMQ publisher (infrastructure/messaging/rabbitmq_publisher.py) *)

(** [ListingState.value] *)
Definition listing_state_value (s : ListingState) : string :=
  match s with
  | FOUND => "FOUND" | MESSAGING => "MESSAGING" | NEGOTIATING => "NEGOTIATING"
  | PURCHASED => "PURCHASED" | RECEIVED => "RECEIVED" | LISTED => "LISTED"
  | SOLD => "SOLD" | CANCELLED => "CANCELLED"
  end%string.

(** [str.lower()] on ASCII text. *)
Definition ascii_lower (c : Ascii.ascii) : Ascii.ascii :=
  let n := Ascii.nat_of_ascii c in
  if (65 <=? n) && (n <=? 90) then Ascii.ascii_of_nat (n + 32) else c.

Fixpoint str_lower (s : string) : string :=
  match s with
  | EmptyString => EmptyString
  | String c s' => String (ascii_lower c) (str_lower s')
  end.

(** [_event_to_routing_key]; the event classes are disjoint, so the order
    of the [isinstance] tests does not matter. (A bare [DomainEvent], routed
    to "event.unknown", is never built by the code.) *)
Definition _event_to_routing_key (e : DomainEvent) : string :=
  match e with
  | ScraperJobCreatedEvent _ _ _ => "scraper.job.created"
  | ListingStateChangedEvent _ _ t _ => "listing.state." ++ str_lower (listing_state_value t)
  | ListingCreatedEvent _ _ _ _ _ _ _ _ _ => "listing.created"
  end%string.

Section Publisher.

(** [publish_fails e]: whether [_blocking_publish] raises for [e] (broker
    unreachable, channel error); the Ports' [publish] is that call. *)
Variable publish_fails : DomainEvent -> bool.

(** [RabbitMQPublisher.publish]: the send, with every exception logged and
    swallowed. *)
Definition rabbitmq_publish (e : DomainEvent) : ST World unit :=
  st_try (publish publish_fails e) (fun _ => st_ret tt).

(** [publish_many] (inherited from [EventPublisher]). *)
Fixpoint rabbitmq_publish_many (events : list DomainEvent) : ST World unit :=
  match events with
  | [] => st_ret tt
  | e :: es => rabbitmq_publish e;; rabbitmq_publish_many es
  end.

End Publisher.

(* ------------------------------------------------------------------ *)
(** ** GetListingHistory (application/use_cases/get_listing_history.py) *)

Record GetListingHistoryOutput := mkHistoryOutput {
  gh_listing_id : nat; gh_history : list StateHistoryRecord
}.

(** [SqlAlchemyStateHistoryRepository.get_history_for_listing]: the rows of
    the listing, [ORDER BY transitioned_at ASC]; the database breaks ties in
    an unspecified way, here by a stable merge sort. *)
Definition transitioned_at_le (a b : StateHistoryRecord) : Prop :=
  (h_transitioned_at a <= h_transitioned_at b)%Z.

#[global] Instance transitioned_at_le_dec : RelDecision transitioned_at_le :=
  fun a b => Z.le_dec (h_transitioned_at a) (h_transitioned_at b).

Definition get_history_for_listing (listing_id : nat) : ST World (list StateHistoryRecord) :=
  w ← st_get;
  st_ret (merge_sort transitioned_at_le
            (filter (fun h => h_listing_id h = listing_id) (history w))).

Definition get_listing_history_execute (listing_id : nat) : ST World GetListingHistoryOutput :=
  lo ← listing_repo_get_by_id listing_id;
  match lo with
  | None => st_raise (ListingNotFoundError listing_id)
  | Some _ =>
      h ← get_history_for_listing listing_id;
      st_ret (mkHistoryOutput listing_id h)
  end.

(* ------------------------------------------------------------------ *)
(** ** Shape of the polling trace *)

(** Every status query comes right after a sleep. *)
Fixpoint queries_after_sleep (tr : list PollEffect) : bool :=
  match tr with
  | [] => true
  | Sleep :: QueryStatus :: tr' => queries_after_sleep tr'
  | QueryStatus :: _ => false
  | _ :: tr' => queries_after_sleep tr'
  end.


(* ------------------------------------------------------------------ *)
(** ** The SQLAlchemy repositories over one database session
    (infrastructure/database/repositories/listing_repository.py,
     state_history_repository_impl.py, database/connection.py)

    A session sees the committed database plus its own flushed writes (the
    open transaction). When a flush fails, SQLAlchemy deactivates the
    transaction: every later statement of the session (a [session.get]
    that misses the identity map, a flush, the commit) raises until the
    session is rolled back, which none of the callers below does. The deal,
    eBay and profit columns are left out, as the aggregate's fields are. *)

(** Run an aggregate method on a local aggregate object, in any state; an
    exception propagates. *)
Definition on_aggregate {S A} (m : ST ProductListing A) (l : ProductListing)
  : ST S (A * ProductListing) :=
  match m l with
  | (Ok a, l') => st_ret (a, l')
  | (Err e, _) => st_raise e
  end.

(** [if body.reason] / [if input_data.reason]: [None] and "" are falsy. *)
Definition reason_metadata (reason : option string) : list (string * MetaVal) :=
  match reason with
  | Some r => if decide (r = ""%string) then [] else [("reason", MStr r)]
  | None => []
  end.

Section SqlSession.

(** [float(Decimal)] and [Decimal(str(float))]: the Numeric columns are
    mapped to Python floats. *)
Variable Float : Type.
Variable float_of_decimal : Z -> Float.
Variable decimal_of_float : Float -> Z.

(** [ProductListingModel] (models.py). The [state] column is an SQLAlchemy
    Enum over [ListingState]: it stores [state.value] and loads the member. *)
Record ProductListingModel := mkModel {
  pm_id : nat;
  pm_product_id : Z;
  pm_marketplace_url : string;
  pm_title : string;
  pm_asking_price : Float;
  pm_state : ListingState;
  pm_state_changed_at : Z;
  pm_created_at : Z;
  pm_updated_at : Z;
  pm_found_at : Z;
  pm_messaged_at : option Z;
  pm_negotiating_at : option Z;
  pm_purchased_at : option Z;
  pm_received_at : option Z;
  pm_listed_at : option Z;
  pm_sold_at : option Z;
  pm_cancelled_at : option Z;
  pm_scraper_job_id : nat;
  pm_brand : string;
  pm_model : string;
  pm_confidence_score : Float;
  pm_estimated_profit : Float;
  pm_error_message : option string;
  pm_error_occurred_at : option Z
}.

(** [_to_domain]: a fresh aggregate, with an empty event buffer. *)
Definition _to_domain (m : ProductListingModel) : ProductListing :=
  mkListing (pm_id m) (pm_product_id m) (pm_marketplace_url m) (pm_title m)
    (decimal_of_float (pm_asking_price m)) (pm_state m)
    (pm_created_at m) (pm_updated_at m) (pm_state_changed_at m) (pm_found_at m)
    (pm_messaged_at m) (pm_negotiating_at m) (pm_purchased_at m) (pm_received_at m)
    (pm_listed_at m) (pm_sold_at m) (pm_cancelled_at m)
    (pm_scraper_job_id m) (pm_brand m) (pm_model m)
    (decimal_of_float (pm_confidence_score m)) (decimal_of_float (pm_estimated_profit m))
    (pm_error_message m) (pm_error_occurred_at m) [].

(** [_to_model] *)
Definition _to_model (l : ProductListing) : ProductListingModel :=
  mkModel (id l) (product_id l) (marketplace_url l) (title l)
    (float_of_decimal (asking_price l)) (state l)
    (state_changed_at l) (created_at l) (updated_at l) (found_at l)
    (messaged_at l) (negotiating_at l) (purchased_at l) (received_at l)
    (listed_at l) (sold_at l) (cancelled_at l)
    (scraper_job_id l) (brand l) (model l)
    (float_of_decimal (confidence_score l)) (float_of_decimal (estimated_profit l))
    (error_message l) (error_occurred_at l).

(** The [else] branch of [save]: the attributes it assigns on the loaded
    row; all others keep their stored values. *)
Definition update_model (m : ProductListingModel) (l : ProductListing) : ProductListingModel :=
  mkModel (pm_id m) (pm_product_id m) (pm_marketplace_url m) (pm_title m)
    (pm_asking_price m) (state l)
    (state_changed_at l) (pm_created_at m) (updated_at l) (pm_found_at m)
    (messaged_at l) (negotiating_at l) (purchased_at l) (received_at l)
    (listed_at l) (sold_at l) (cancelled_at l)
    (pm_scraper_job_id m) (pm_brand m) (pm_model m)
    (pm_confidence_score m) (pm_estimated_profit m)
    (error_message l) (error_occurred_at l).

(** The tables: [product_listings] by primary key, [product_state_history]
    in insertion order (its own [id] is left out, as in [StateHistoryRecord]). *)
Record DbState := mkDb {
  db_listings : gmap nat ProductListingModel;
  db_history : list StateHistoryRecord
}.

Record Session := mkSession {
  committed : DbState;     (** the database as other sessions see it *)
  tx : DbState;            (** the open transaction: committed plus flushed writes *)
  tx_failed : bool;        (** a flush failed: the transaction is inactive *)
  bus : list DomainEvent;  (** events delivered to the RabbitMQ exchange *)
  uuid_next : nat;         (** uuid4() supply *)
  db_now : Z               (** the clock: _utcnow() and the database's now() *)
}.

Definition set_tx (d : DbState) (s : Session) : Session :=
  mkSession (committed s) d (tx_failed s) (bus s) (uuid_next s) (db_now s).
Definition set_tx_failed (s : Session) : Session :=
  mkSession (committed s) (tx s) true (bus s) (uuid_next s) (db_now s).
Definition set_committed (d : DbState) (s : Session) : Session :=
  mkSession d (tx s) (tx_failed s) (bus s) (uuid_next s) (db_now s).
Definition set_bus (b : list DomainEvent) (s : Session) : Session :=
  mkSession (committed s) (tx s) (tx_failed s) b (uuid_next s) (db_now s).
Definition bump_session_uuid (s : Session) : Session :=
  mkSession (committed s) (tx s) (tx_failed s) (bus s) (S (uuid_next s)) (db_now s).

(** [AsyncSessionLocal()]: a new session, its transaction starting from the
    committed database. *)
Definition begin_session (s : Session) : Session :=
  mkSession (committed s) (committed s) false (bus s) (uuid_next s) (db_now s).

Definition session_uuid4 : ST Session nat :=
  s ← st_get; st_put (bump_session_uuid s);; st_ret (uuid_next s).

Definition session_utcnow : ST Session Z := s ← st_get; st_ret (db_now s).

(** Whether the database rejects flushing a row (NOT NULL, length or
    numeric overflow, connection loss, ...), and whether COMMIT fails. *)
Variable listing_flush_fails : ProductListingModel -> bool.
Variable history_flush_fails : StateHistoryRecord -> bool.
Variable commit_fails : bool.

(** [await self._session.flush()] with one pending listing row. *)
Definition flush_listing (row : ProductListingModel) : ST Session unit :=
  s ← st_get;
  if tx_failed s then st_raise PortError
  else if listing_flush_fails row then st_put (set_tx_failed s);; st_raise PortError
  else st_put (set_tx (mkDb (<[pm_id row := row]> (db_listings (tx s))) (db_history (tx s))) s).

(** [SqlAlchemyListingRepository.save]; [session.get] raises in an inactive
    transaction. *)
Definition sql_listing_save (listing : ProductListing) : ST Session unit :=
  s ← st_get;
  if tx_failed s then st_raise PortError
  else
    match db_listings (tx s) !! id listing with
    | None => flush_listing (_to_model listing)
    | Some m => flush_listing (update_model m listing)
    end.

(** [SqlAlchemyListingRepository.get_by_id] *)
Definition sql_get_by_id (listing_id : nat) : ST Session (option ProductListing) :=
  s ← st_get;
  if tx_failed s then st_raise PortError
  else st_ret (_to_domain <$> db_listings (tx s) !! listing_id).

(** [SqlAlchemyStateHistoryRepository.save]: [transitioned_at] is the
    server default [now()]; the foreign key to [product_listings] is
    checked at the flush. *)
Definition sql_history_save (listing_id : nat) (from_state : option ListingState)
    (to_state : ListingState) (triggered_by : string)
    (metadata : list (string * MetaVal)) : ST Session unit :=
  s ← st_get;
  let record := mkHistory listing_id from_state to_state (db_now s) triggered_by metadata in
  if tx_failed s then st_raise PortError
  else if history_flush_fails record || negb (bool_decide (is_Some (db_listings (tx s) !! listing_id)))
  then st_put (set_tx_failed s);; st_raise PortError
  else st_put (set_tx (mkDb (db_listings (tx s)) (db_history (tx s) ++ [record])) s).

(** [await session.commit()] *)
Definition session_commit : ST Session unit :=
  s ← st_get;
  if tx_failed s then st_raise PortError
  else if commit_fails then st_raise PortError
  else st_put (set_committed (tx s) s).

(** [RabbitMQPublisher] on the session's bus: every send failure is
    swallowed. *)
Variable send_fails : DomainEvent -> bool.

Definition bus_publish (e : DomainEvent) : ST Session unit :=
  st_try (if send_fails e then st_raise PortError
          else st_modify (fun s => set_bus (bus s ++ [e]) s))
         (fun _ => st_ret tt).

Fixpoint bus_publish_many (events : list DomainEvent) : ST Session unit :=
  match events with
  | [] => st_ret tt
  | e :: es => bus_publish e;; bus_publish_many es
  end.

(* ------------------------------------------------------------------ *)
(** *** process_scraper_matches (function_app.py) *)

(** What the [try] block reads from one match dict:
    [product_data.get("id")], [listing_data.get("url")], ... and the three
    [Decimal(str(...))] conversions. [match_fields m = None] when reading
    raises ([.get] on a value that is not a dict, an unparsable Decimal).
    A missing key reads as [None], which these fields cannot hold: the model
    covers the matches whose fields are all present. *)
Record MatchFields := mkMatchFields {
  mf_product_id : Z; mf_url : string; mf_title : string; mf_price : Z;
  mf_brand : string; mf_model : string; mf_confidence : Z; mf_potential_profit : Z
}.

Variable Match : Type.
Variable match_fields : Match -> option MatchFields.
(** [UUID(job_id)]; [None] when it raises ValueError. *)
Variable parse_uuid : string -> option nat.

Definition process_one_match (job_id brand : string) (m : Match) : ST Session nat :=
  match match_fields m, parse_uuid job_id with
  | Some f, Some job =>
      fid ← session_uuid4;
      now ← session_utcnow;
      let listing := create_from_scraper_match fid now (mf_product_id f) (mf_url f)
                       (mf_title f) (mf_price f) job (mf_brand f) (mf_model f)
                       (mf_confidence f) (mf_potential_profit f) in
      sql_listing_save listing;;
      sql_history_save (id listing) None FOUND "scraper_polling"
        [("job_id", MStr job_id); ("brand", MStr brand)];;
      '(events, _) ← on_aggregate collect_events listing;
      bus_publish_many events;;
      st_ret (id listing)
  | _, _ => st_raise PortError
  end.

Fixpoint process_matches_loop (job_id brand : string) (matches : list Match)
    (created_ids : list nat) : ST Session (list nat) :=
  match matches with
  | [] => st_ret created_ids
  | m :: ms =>
      r ← st_try (lid ← process_one_match job_id brand m; st_ret (Some lid))
                 (fun _ => st_ret None);
      match r with
      | Some lid => process_matches_loop job_id brand ms (created_ids ++ [lid])
      | None => process_matches_loop job_id brand ms created_ids
      end
  end.

Definition process_scraper_matches (job_id brand : string) (matches : list Match)
  : ST Session (list nat) :=
  st_modify begin_session;;
  created_ids ← process_matches_loop job_id brand matches [];
  session_commit;;
  st_ret created_ids.

(* ------------------------------------------------------------------ *)
(** *** scraper_job_complete (api/routes/webhooks.py)

    The payload is validated by pydantic, so building the aggregate cannot
    raise; the route and both repositories share the request's session. *)

Record WebhookAcceptedResponse := mkAccepted {
  wa_created_listings : nat; wa_skipped : nat
}.

Definition webhook_one (job_id : nat) (brand : string) (m : ScraperMatch) : ST Session nat :=
  fid ← session_uuid4;
  now ← session_utcnow;
  let listing := create_from_scraper_match fid now (m_product_id m) (url m) (m_title m)
                   (price m) job_id (m_brand m) (m_model m) (confidence m)
                   (potential_profit m) in
  sql_listing_save listing;;
  sql_history_save (id listing) None FOUND "scraper_webhook"
    [("job_id", MUuid job_id); ("brand", MStr brand)];;
  '(events, _) ← on_aggregate collect_events listing;
  bus_publish_many events;;
  st_ret (id listing).

Fixpoint webhook_loop (job_id : nat) (brand : string) (matches : list ScraperMatch)
    (created_ids : list nat) (skipped : nat) : ST Session (list nat * nat) :=
  match matches with
  | [] => st_ret (created_ids, skipped)
  | m :: ms =>
      r ← st_try (lid ← webhook_one job_id brand m; st_ret (Some lid)) (fun _ => st_ret None);
      match r with
      | Some lid => webhook_loop job_id brand ms (created_ids ++ [lid]) skipped
      | None => webhook_loop job_id brand ms created_ids (S skipped)
      end
  end.

Definition scraper_job_complete (job_id : nat) (brand : string) (matches : list ScraperMatch)
  : ST Session WebhookAcceptedResponse :=
  '(created_ids, skipped) ← webhook_loop job_id brand matches [] 0;
  st_ret (mkAccepted (length created_ids) skipped).

(* ------------------------------------------------------------------ *)
(** *** transition_listing (api/routes/admin.py)

    The two [HTTPException]s are the responses [AdminNotFound] (404) and
    [AdminUnprocessable] (422). *)

Inductive AdminResponse :=
  | AdminNotFound
  | AdminUnprocessable (e : Exn)
  | AdminOk (listing : ProductListing).

Definition admin_transition_listing (listing_id : nat) (to_state : ListingState)
    (reason : option string) : ST Session AdminResponse :=
  lo ← sql_get_by_id listing_id;
  match lo with
  | None => st_ret AdminNotFound
  | Some listing =>
      let from_state := state listing in
      now ← session_utcnow;
      match transition_to to_state "admin_api" now listing with
      | (Err e, _) => st_ret (AdminUnprocessable e)
      | (Ok _, listing) =>
          sql_listing_save listing;;
          sql_history_save (id listing) (Some from_state) to_state "admin_api"
            (reason_metadata reason);;
          '(events, listing) ← on_aggregate collect_events listing;
          bus_publish_many events;;
          st_ret (AdminOk listing)
      end
  end.

End SqlSession.

Arguments pm_id {Float}.
Arguments pm_product_id {Float}.
Arguments pm_marketplace_url {Float}.
Arguments pm_title {Float}.
Arguments pm_asking_price {Float}.
Arguments pm_state {Float}.
Arguments pm_state_changed_at {Float}.
Arguments pm_created_at {Float}.
Arguments pm_updated_at {Float}.
Arguments pm_found_at {Float}.
Arguments pm_messaged_at {Float}.
Arguments pm_negotiating_at {Float}.
Arguments pm_purchased_at {Float}.
Arguments pm_received_at {Float}.
Arguments pm_listed_at {Float}.
Arguments pm_sold_at {Float}.
Arguments pm_cancelled_at {Float}.
Arguments pm_scraper_job_id {Float}.
Arguments pm_brand {Float}.
Arguments pm_model {Float}.
Arguments pm_confidence_score {Float}.
Arguments pm_estimated_profit {Float}.
Arguments pm_error_message {Float}.
Arguments pm_error_occurred_at {Float}.
Arguments mkModel {Float}.
Arguments db_listings {Float}.
Arguments db_history {Float}.
Arguments mkDb {Float}.
Arguments committed {Float}.
Arguments tx {Float}.
Arguments tx_failed {Float}.
Arguments bus {Float}.
Arguments uuid_next {Float}.
Arguments db_now {Float}.
Arguments mkSession {Float}.
Arguments _to_domain {Float}.
Arguments _to_model {Float}.
Arguments update_model {Float}.
Arguments set_tx {Float}.
Arguments set_tx_failed {Float}.
Arguments set_committed {Float}.
Arguments set_bus {Float}.
Arguments bump_session_uuid {Float}.
Arguments begin_session {Float}.
Arguments session_uuid4 {Float}.
Arguments session_utcnow {Float}.
Arguments flush_listing {Float}.
Arguments sql_listing_save {Float}.
Arguments sql_get_by_id {Float}.
Arguments sql_history_save {Float}.
Arguments session_commit {Float}.
Arguments bus_publish {Float}.
Arguments bus_publish_many {Float}.
Arguments webhook_one {Float}.
Arguments webhook_loop {Float}.
Arguments scraper_job_complete {Float}.
Arguments admin_transition_listing {Float}.
Arguments process_one_match {Float} float_of_decimal listing_flush_fails history_flush_fails send_fails {Match}.
Arguments process_matches_loop {Float} float_of_decimal listing_flush_fails history_flush_fails send_fails {Match}.
Arguments process_scraper_matches {Float} float_of_decimal listing_flush_fails history_flush_fails commit_fails send_fails {Match}.

(** The fields of a listing that only the insert path of [save] writes. *)
Definition creation_fields (l : ProductListing) :=
  (product_id l, marketplace_url l, title l, asking_price l, created_at l, found_at l,
   scraper_job_id l, brand l, model l, confidence_score l, estimated_profit l).

(** Aggregates obtained from [l0] through the aggregate's own operations. *)
Inductive evolves (l0 : ProductListing) : ProductListing -> Prop :=
  | evolves_refl : evolves l0 l0
  | evolves_transition l s tb now r l' :
      evolves l0 l -> transition_to s tb now l = (r, l') -> evolves l0 l'
  | evolves_record_error l msg now :
      evolves l0 l -> evolves l0 (snd (record_error msg now l))
  | evolves_collect l :
      evolves l0 l -> evolves l0 (snd (collect_events l)).

(** The aggregate [process_scraper_matches] builds from the fields of a match. *)
Definition scraper_listing (k : nat) (now : Z) (f : MatchFields) (job : nat) : ProductListing :=
  create_from_scraper_match k now (mf_product_id f) (mf_url f) (mf_title f) (mf_price f) job
    (mf_brand f) (mf_model f) (mf_confidence f) (mf_potential_profit f).

(* ------------------------------------------------------------------ *)
(** ** Search rotation
    (infrastructure/database/repositories/search_rotation_repository.py)

    The [search_rotation] table of the products database, as a list of
    rows in the order a scan meets them. Database errors (which propagate
    out of [get_next_search]) are not modelled. *)

Record RotationRow := mkRotationRow {
  sr_id : nat;
  sr_brand : string;
  sr_search_term : option string;
  sr_enabled : bool;
  sr_last_searched : bool;
  sr_last_searched_at : option Z;
  sr_updated_at : option Z
}.

Definition set_last_searched (b : bool) (r : RotationRow) : RotationRow :=
  mkRotationRow (sr_id r) (sr_brand r) (sr_search_term r) (sr_enabled r) b
    (sr_last_searched_at r) (sr_updated_at r).

(** [SET last_searched = TRUE, last_searched_at = :now, updated_at = :now] *)
Definition stamp_searched (now : Z) (r : RotationRow) : RotationRow :=
  mkRotationRow (sr_id r) (sr_brand r) (sr_search_term r) (sr_enabled r) true
    (Some now) (Some now).

(** [UPDATE search_rotation SET ... WHERE id = :id] *)
Definition update_where_id (rid : nat) (f : RotationRow -> RotationRow)
    (tbl : list RotationRow) : list RotationRow :=
  map (fun r => if Nat.eqb (sr_id r) rid then f r else r) tbl.

(** [SELECT ... WHERE p LIMIT 1] with no ORDER BY: the database may return
    any matching row; here the first one the scan meets. *)
Definition select_limit1 (p : RotationRow -> bool) (tbl : list RotationRow)
  : option RotationRow :=
  List.find p tbl.

(** [SELECT ... WHERE p ORDER BY id ASC LIMIT 1] *)
Fixpoint select_first_by_id (p : RotationRow -> bool) (tbl : list RotationRow)
  : option RotationRow :=
  match tbl with
  | [] => None
  | r :: rs =>
      let best := select_first_by_id p rs in
      if p r then
        match best with
        | Some r' => if Nat.ltb (sr_id r') (sr_id r) then Some r' else Some r
        | None => Some r
        end
      else best
  end.

(** [WHERE last_searched = TRUE AND enabled = TRUE]: the search run last. *)
Definition current_search_row (r : RotationRow) : bool :=
  sr_last_searched r && sr_enabled r.

(** [search_term or brand]: [None] and "" are falsy. *)
Definition search_term_or_brand (r : RotationRow) : string :=
  match sr_search_term r with
  | Some t => if decide (t = ""%string) then sr_brand r else t
  | None => sr_brand r
  end.

(** [SearchRotationRepository.get_next_search]. All statements run in one
    session, which sees its own updates; they are committed only when a
    row is chosen (otherwise the session is closed and they are rolled
    back). The [WHERE] of the second query,
    [(last_searched = FALSE AND id > :current_id) OR :current_id IS NULL],
    is true for every row when [:current_id] is NULL. [now] is
    [datetime.now(timezone.utc)]. *)
Definition get_next_search (now : Z) : ST (list RotationRow) (option (string * string)) :=
  tbl ← st_get;
  let current_row := select_limit1 current_search_row tbl in
  let tbl1 := match current_row with
              | Some c => update_where_id (sr_id c) (set_last_searched false) tbl
              | None => tbl
              end in
  let next_row :=
    select_first_by_id
      (fun r => sr_enabled r &&
                match current_row with
                | Some c => negb (sr_last_searched r) && Nat.ltb (sr_id c) (sr_id r)
                | None => true
                end) tbl1 in
  let next_row := match next_row with
                  | Some n => Some n
                  | None => select_first_by_id sr_enabled tbl1
                  end in
  match next_row with
  | Some n =>
      st_put (update_where_id (sr_id n) (stamp_searched now) tbl1);;
      st_ret (Some (sr_brand n, search_term_or_brand n))
  | None => st_ret None
  end.

(* ------------------------------------------------------------------ *)
(** ** The scrape entry points (function_app.py: trigger_scrape,
       scheduled_scrape) *)

(** A Python value decoded from JSON; [JNull] is [None]. *)
#[warnings="-register-all"]
Inductive Json :=
  | JNull
  | JBool (b : bool)
  | JNum (n : Z)
  | JStr (s : string)
  | JArr (xs : list Json)
  | JObj (kvs : list (string * Json)).

(** Python truthiness. *)
Definition json_truthy (j : Json) : bool :=
  match j with
  | JNull => false
  | JBool b => b
  | JNum n => negb (Z.eqb n 0)
  | JStr s => negb (bool_decide (s = ""%string))
  | JArr xs => negb (bool_decide (xs = []))
  | JObj kvs => negb (bool_decide (kvs = []))
  end.

(** [x or y] *)
Definition json_or (x y : Json) : Json := if json_truthy x then x else y.

(** [payload.get(key)]: [None] when [payload] is not a dict (AttributeError);
    [json.loads] keeps the last of duplicate keys; a missing key gives
    [None]. *)
Definition py_get (payload : Json) (key : string) : option Json :=
  match payload with
  | JObj kvs =>
      Some (match List.find (fun kv => bool_decide (fst kv = key)) (rev kvs) with
            | Some kv => snd kv
            | None => JNull
            end)
  | _ => None
  end.

(** What the two entry points do outside the products database. *)
Inductive ScrapeEffect :=
  | SeStartContainer                        (** container_manager.start_container(...) *)
  | SeSleep30                               (** await asyncio.sleep(30) *)
  | SeStartScrape (brand search : Json)     (** ScraperClient.start_scrape(brand, search or brand) *)
  | SeSpawnPoller (job : nat) (brand search_term : Json).
                                            (** asyncio.create_task(poll_scraper_and_process(...)) *)

Record ScrapeWorld := mkScrapeWorld {
  sw_rotation : list RotationRow;   (** the products database *)
  sw_effects : list ScrapeEffect;
  sw_now : Z
}.

Definition set_rotation (t : list RotationRow) (w : ScrapeWorld) : ScrapeWorld :=
  mkScrapeWorld t (sw_effects w) (sw_now w).
Definition emit (e : ScrapeEffect) (w : ScrapeWorld) : ScrapeWorld :=
  mkScrapeWorld (sw_rotation w) (sw_effects w ++ [e]) (sw_now w).

(** The responses of [trigger_scrape]; all but [TrStarted] have status 500. *)
Inductive TriggerResponse :=
  | TrNoRotation                     (** "No searches configured in rotation table" *)
  | TrStartFailed                    (** "Failed to start scraper container: ..." *)
  | TrTriggerFailed                  (** {"error": str(exc)} *)
  | TrStarted (job_id : nat) (status : string) (brand search_term : Json) (source : string).

Definition http_status (r : TriggerResponse) : nat :=
  match r with TrStarted _ _ _ _ _ => 200 | _ => 500 end.

Section ScrapeEntryPoints.

(** [req.get_json()] on a non-empty body; [None] when it raises ValueError. *)
Variable parse_json : string -> option Json.
(** Whether [container_manager.start_container] raises. *)
Variable start_fails : bool.
(** [ScraperCoordinator.trigger_scrape(brand, search)]: the job id and
    status of the response, [None] when it raises (HTTP error, missing
    key, job id that is not a UUID). *)
Variable start_scrape : Json -> Json -> option (nat * string).

Definition rotation_next : ST ScrapeWorld (option (string * string)) :=
  w ← st_get;
  match get_next_search (sw_now w) (sw_rotation w) with
  | (Ok r, t) => st_put (set_rotation t w);; st_ret r
  | (Err e, _) => st_raise e
  end.

(** [coordinator.trigger_scrape(brand=brand, search=search_term)] *)
Definition coordinator_trigger (brand search : Json) : ST ScrapeWorld (option (nat * string)) :=
  st_modify (emit (SeStartScrape brand (json_or search brand)));;
  st_ret (start_scrape brand (json_or search brand)).

(** From "START ScraperV2 container" to the end of [trigger_scrape]. *)
Definition trigger_launch (payload brand search_term : Json) : ST ScrapeWorld TriggerResponse :=
  st_modify (emit SeStartContainer);;
  if start_fails then st_ret TrStartFailed
  else
    st_modify (emit SeSleep30);;
    res ← coordinator_trigger brand search_term;
    match res with
    | None => st_ret TrTriggerFailed
    | Some (job, status) =>
        st_modify (emit (SeSpawnPoller job brand search_term));;
        match py_get payload "brand" with
        | Some b =>
            st_ret (TrStarted job status brand search_term
                      (if json_truthy b then "manual" else "rotation"))
        | None => st_ret TrTriggerFailed           (** caught by [except Exception] *)
        end
    end.

(** [trigger_scrape] on a request with body [body]. *)
Definition trigger_scrape (body : string) : ST ScrapeWorld TriggerResponse :=
  let parsed := if bool_decide (body = ""%string) then Some (JObj []) else parse_json body in
  let read :=
    match parsed with
    | None => Some (JObj [], JNull, JNull)          (** except (ValueError, TypeError) *)
    | Some p =>
        match py_get p "brand", py_get p "search_term" with
        | Some b, Some st => Some (p, b, st)
        | _, _ => None                              (** AttributeError escapes *)
        end
    end in
  match read with
  | None => st_raise PortError
  | Some (payload, brand, search_term) =>
      if negb (json_truthy brand) then
        next ← rotation_next;
        match next with
        | None => st_ret TrNoRotation
        | Some (b, s) => trigger_launch payload (JStr b) (JStr s)
        end
      else trigger_launch payload brand (json_or search_term brand)
  end.

(** [scheduled_scrape]: every exception after the rotation is logged and
    swallowed. *)
Definition scheduled_scrape : ST ScrapeWorld unit :=
  next ← rotation_next;
  match next with
  | None => st_ret tt
  | Some (b, s) =>
      st_modify (emit SeStartContainer);;
      if start_fails then st_ret tt
      else
        st_modify (emit SeSleep30);;
        res ← coordinator_trigger (JStr b) (JStr s);
        match res with
        | None => st_ret tt
        | Some (job, _) => st_modify (emit (SeSpawnPoller job (JStr b) (JStr s)))
        end
  end.

End ScrapeEntryPoints.
(* ------------------------------------------------------------------ *)
(** ** Basic facts about the aggregate *)

Lemma dict_get_VALID_TRANSITIONS (f : ListingState) :
  dict_get VALID_TRANSITIONS f [] = spec_allowed f.
Proof. destruct f; reflexivity. Qed.

Lemma can_transition_rank (f t : ListingState) :
  can_transition f t = true -> rank f < rank t.
Proof. destruct f, t; cbv; intros H; first [discriminate H | lia]. Qed.

Lemma can_transition_not_found (f : ListingState) : can_transition f FOUND = false.
Proof. destruct f; reflexivity. Qed.

Lemma transition_to_eq (s : ListingState) (tb : string) (now : Z) (l : ProductListing) :
  transition_to s tb now l =
  if can_transition (state l) s then
    (Ok tt,
     let l1 := set_state_fields s now l in
     let l2 := match lifecycle_attr s with
               | Some a => set_ts a (Some now) l1
               | None => l1
               end in
     set_events (_events l2 ++ [ListingStateChangedEvent (id l2) (Some (state l)) s tb]) l2)
  else (Err (InvalidStateTransitionError (state l) s), l).
Proof.
  unfold transition_to, validate_transition, _apply_lifecycle_timestamp.
  unfold mbind, ST_bind, st_bind, st_get, st_modify, st_raise, st_ret.
  destruct (can_transition (state l) s); [|reflexivity].
  destruct (lifecycle_attr s); reflexivity.
Qed.

Lemma get_ts_set_ts_eq (a : LifecycleAttr) v l : get_ts a (set_ts a v l) = v.
Proof. destruct l, a; reflexivity. Qed.

Lemma get_ts_set_ts_neq (a b : LifecycleAttr) v l :
  b <> a -> get_ts b (set_ts a v l) = get_ts b l.
Proof. destruct l, a, b; cbn; congruence. Qed.

Lemma get_ts_set_state_fields b st now l : get_ts b (set_state_fields st now l) = get_ts b l.
Proof. destruct l, b; reflexivity. Qed.

Lemma get_ts_set_events b evs l : get_ts b (set_events evs l) = get_ts b l.
Proof. destruct l, b; reflexivity. Qed.

Lemma get_ts_set_error b msg now l : get_ts b (set_error msg now l) = get_ts b l.
Proof. destruct l, b; reflexivity. Qed.

Lemma state_set_ts a v l : state (set_ts a v l) = state l.
Proof. destruct l, a; reflexivity. Qed.

Lemma events_set_ts a v l : _events (set_ts a v l) = _events l.
Proof. destruct l, a; reflexivity. Qed.

Lemma id_set_ts a v l : id (set_ts a v l) = id l.
Proof. destruct l, a; reflexivity. Qed.

Lemma lifecycle_attr_state (s : ListingState) (a : LifecycleAttr) :
  lifecycle_attr s = Some a -> attr_state a = s.
Proof. destruct s; cbn; intros H; inversion H; reflexivity. Qed.

Lemma lifecycle_attr_of_state (a : LifecycleAttr) : lifecycle_attr (attr_state a) = Some a.
Proof. destruct a; reflexivity. Qed.

Lemma events_set_events evs l : _events (set_events evs l) = evs.
Proof. destruct l; reflexivity. Qed.

Lemma id_set_events evs l : id (set_events evs l) = id l.
Proof. destruct l; reflexivity. Qed.

Lemma id_set_state_fields st now l : id (set_state_fields st now l) = id l.
Proof. destruct l; reflexivity. Qed.

Lemma events_set_state_fields st now l : _events (set_state_fields st now l) = _events l.
Proof. destruct l; reflexivity. Qed.

Lemma state_set_events evs l : state (set_events evs l) = state l.
Proof. destruct l; reflexivity. Qed.

Lemma state_set_state_fields st now l : state (set_state_fields st now l) = st.
Proof. destruct l; reflexivity. Qed.

(** Invariant of reachable aggregates: a set lifecycle timestamp belongs to
    a state no later in the DAG than the current one. *)
Definition ts_behind (l : ProductListing) : Prop :=
  forall a, get_ts a l <> None -> rank (attr_state a) <= rank (state l).

Lemma reachable_ts_behind (l : ProductListing) : reachable l -> ts_behind l.
Proof.
  induction 1 as [fid now pid url ttl price job br md conf prof
                 | l s tb now r l' _ IH Ht | l msg now _ IH | l _ IH].
  - intros a Ha. destruct a; cbn in Ha; congruence.
  - rewrite transition_to_eq in Ht.
    destruct (can_transition (state l) s) eqn:Hc; inversion Ht; subst; [|exact IH].
    apply can_transition_rank in Hc.
    intros b Hb. rewrite state_set_events.
    destruct (lifecycle_attr s) as [a|] eqn:Ha.
    + rewrite state_set_ts, state_set_state_fields.
      destruct (decide (b = a)) as [->|Hne].
      * apply lifecycle_attr_state in Ha. subst s. lia.
      * rewrite get_ts_set_events, get_ts_set_ts_neq in Hb by exact Hne.
        rewrite get_ts_set_state_fields in Hb.
        specialize (IH b Hb). lia.
    + destruct s; cbn in Ha; try discriminate Ha; cbn in Hc; lia.
  - intros b Hb. unfold record_error, st_modify in *. cbn in *.
    destruct l; cbn in *. apply (IH b). destruct b; exact Hb.
  - intros b Hb. unfold collect_events, mbind, ST_bind, st_bind, st_get,
      st_modify, st_ret in *. cbn in *.
    destruct l; cbn in *. apply (IH b). destruct b; exact Hb.
Qed.

(* ------------------------------------------------------------------ *)
(** ** Claims about the state machine and the aggregate *)

(** C2: [can_transition from to] is false when [from] is SOLD or
    CANCELLED, otherwise it holds exactly when [to] is in the fixed allowed
    set of section 4.1, and [get_allowed_transitions from] is that set. *)
Theorem can_transition_matches_table (f t : ListingState) :
  (f = SOLD \/ f = CANCELLED -> can_transition f t = false) /\
  (can_transition f t = true <->
     f <> SOLD /\ f <> CANCELLED /\ t ∈ spec_allowed f) /\
  get_allowed_transitions f = spec_allowed f.
Proof.
  assert (Hc : can_transition f t =
               if is_terminal f then false else bool_decide (t ∈ spec_allowed f)).
  { unfold can_transition. rewrite dict_get_VALID_TRANSITIONS. reflexivity. }
  split; [|split].
  - intros [-> | ->]; reflexivity.
  - rewrite Hc. destruct (is_terminal f) eqn:Ht.
    + split; [discriminate|]. intros (H1 & H2 & _).
      destruct f; cbv in Ht; congruence.
    + rewrite bool_decide_eq_true. split.
      * intros H. destruct f; cbv in Ht; try discriminate Ht;
          repeat split; first [discriminate | exact H].
      * intros (_ & _ & H). exact H.
  - apply dict_get_VALID_TRANSITIONS.
Qed.

(** C8: [collect_events] returns exactly the buffered events and leaves the
    buffer empty, so a second call returns the empty list. *)
Theorem collect_events_drains (l : ProductListing) :
  collect_events l = (Ok (_events l), set_events [] l) /\
  _events (snd (collect_events l)) = [] /\
  fst (collect_events (snd (collect_events l))) = Ok [].
Proof.
  unfold collect_events, mbind, ST_bind, st_bind, st_get, st_modify, st_ret.
  destruct l; cbn. repeat split.
Qed.

(** C1 (as stated, refuted): an aggregate that is still FOUND but already
    carries [messaged_at] transitions to MESSAGING successfully, yet no
    previously-null lifecycle timestamp is set: [messaged_at] is
    overwritten instead. *)
Lemma transition_to_literal_counterexample :
  ~ transition_spec_literal premessaged_listing MESSAGING "test"%string 9%Z.
Proof.
  unfold transition_spec_literal. rewrite transition_to_eq. cbn.
  intros (_ & (a & Ha & Hset & Hother) & _).
  destruct a; cbn in Ha; try discriminate Ha.
  - specialize (Hother messaged_at_attr ltac:(discriminate)). cbn in Hother. discriminate.
  - specialize (Hother messaged_at_attr ltac:(discriminate)). cbn in Hother. discriminate.
  - specialize (Hother messaged_at_attr ltac:(discriminate)). cbn in Hother. discriminate.
  - specialize (Hother messaged_at_attr ltac:(discriminate)). cbn in Hother. discriminate.
  - specialize (Hother messaged_at_attr ltac:(discriminate)). cbn in Hother. discriminate.
  - specialize (Hother messaged_at_attr ltac:(discriminate)). cbn in Hother. discriminate.
Qed.

(** Shape of a successful [transition_to]: the destination's lifecycle
    attribute exists and is set to [now], and on reachable aggregates it
    was null before. *)
Lemma transition_to_success_shape (l : ProductListing) (s : ListingState) (tb : string) (now : Z) :
  can_transition (state l) s = true ->
  exists a, lifecycle_attr s = Some a /\
    snd (transition_to s tb now l) =
      set_events (_events l ++ [ListingStateChangedEvent (id l) (Some (state l)) s tb])
                 (set_ts a (Some now) (set_state_fields s now l)) /\
    (reachable l -> get_ts a l = None).
Proof.
  intros Hc. rewrite transition_to_eq, Hc.
  destruct (lifecycle_attr s) as [a|] eqn:Ha.
  - exists a. split; [reflexivity|]. split.
    + cbn. rewrite events_set_ts, id_set_ts, events_set_state_fields, id_set_state_fields.
      reflexivity.
    + intros Hr. destruct (get_ts a l) as [t0|] eqn:Hts; [|reflexivity].
      exfalso. apply reachable_ts_behind in Hr.
      specialize (Hr a ltac:(rewrite Hts; discriminate)).
      apply can_transition_rank in Hc. apply lifecycle_attr_state in Ha. subst s. lia.
  - destruct s; try discriminate Ha. rewrite can_transition_not_found in Hc. discriminate.
Qed.

Lemma transition_to_id (s : ListingState) (tb : string) (now : Z) (l : ProductListing) :
  id (snd (transition_to s tb now l)) = id l.
Proof.
  rewrite transition_to_eq. destruct (can_transition (state l) s); [|reflexivity].
  cbn. rewrite id_set_events.
  destruct (lifecycle_attr s); rewrite ?id_set_ts; apply id_set_state_fields.
Qed.

(** C1 (amended): [transition_to] either succeeds, making the target the
    current state, setting the target's lifecycle timestamp to [now]
    (overwriting whatever it held; on aggregates reachable from the factory
    it was null), leaving the other lifecycle timestamps alone and
    appending exactly one ListingStateChangedEvent; or it raises the
    validation failure and leaves the aggregate exactly as it was. *)
Theorem transition_to_all_or_nothing (l : ProductListing) (s : ListingState) (tb : string) (now : Z) :
  match transition_to s tb now l with
  | (Ok _, l') =>
      can_transition (state l) s = true /\ state l' = s /\
      (exists a, lifecycle_attr s = Some a /\ get_ts a l' = Some now /\
         (forall b, b <> a -> get_ts b l' = get_ts b l) /\
         (reachable l -> get_ts a l = None)) /\
      _events l' = _events l ++ [ListingStateChangedEvent (id l) (Some (state l)) s tb]
  | (Err e, l') =>
      can_transition (state l) s = false /\
      e = InvalidStateTransitionError (state l) s /\ l' = l
  end.
Proof.
  destruct (can_transition (state l) s) eqn:Hc.
  - destruct (transition_to_success_shape l s tb now Hc) as (a & Ha & Hl' & Hr).
    assert (Hfst : fst (transition_to s tb now l) = Ok tt)
      by (rewrite transition_to_eq, Hc; reflexivity).
    destruct (transition_to s tb now l) as [r l'] eqn:Ht. cbn in Hfst, Hl'. subst r l'.
    split; [reflexivity|]. split.
    { rewrite state_set_events, state_set_ts, state_set_state_fields. reflexivity. }
    split.
    + exists a. split; [exact Ha|]. split.
      * rewrite get_ts_set_events, get_ts_set_ts_eq. reflexivity.
      * split; [|exact Hr]. intros b Hb.
        rewrite get_ts_set_events, get_ts_set_ts_neq by exact Hb.
        apply get_ts_set_state_fields.
    + apply events_set_events.
  - rewrite transition_to_eq, Hc. repeat split.
Qed.

(** C5 (as stated, refuted): [transition_to] overwrites a lifecycle
    timestamp that is already set, on an aggregate value outside the DAG's
    reachable ones. *)
Lemma transition_to_overwrites_timestamp :
  get_ts messaged_at_attr premessaged_listing = Some 5%Z /\
  fst (transition_to MESSAGING "test"%string 9%Z premessaged_listing) = Ok tt /\
  get_ts messaged_at_attr (snd (transition_to MESSAGING "test"%string 9%Z premessaged_listing))
    = Some 9%Z.
Proof. split; [|split]; reflexivity. Qed.

(** C5 (amended): no operation clears a lifecycle timestamp or touches one
    other than the destination's; [transition_to] sets the destination's
    timestamp to [now] unconditionally, and on every aggregate reachable
    from the factory that timestamp was still null, so there each lifecycle
    timestamp is set at most once. *)
Theorem lifecycle_timestamps_set_once (l : ProductListing) (s : ListingState)
    (tb msg : string) (now : Z) :
  (forall b, get_ts b (snd (record_error msg now l)) = get_ts b l) /\
  (forall b, get_ts b (snd (collect_events l)) = get_ts b l) /\
  (forall b, lifecycle_attr s <> Some b ->
     get_ts b (snd (transition_to s tb now l)) = get_ts b l) /\
  (forall b, lifecycle_attr s = Some b ->
     match transition_to s tb now l with
     | (Ok _, l') => get_ts b l' = Some now /\ (reachable l -> get_ts b l = None)
     | (Err _, l') => get_ts b l' = get_ts b l
     end).
Proof.
  split; [|split; [|split]].
  - intros b. apply get_ts_set_error.
  - intros b. apply get_ts_set_events.
  - intros b Hb. pose proof (transition_to_all_or_nothing l s tb now) as H.
    destruct (transition_to s tb now l) as [[u|e] l'].
    + destruct H as (_ & _ & (a & Ha & _ & Hother & _) & _). cbn.
      apply Hother. congruence.
    + destruct H as (_ & _ & ->). reflexivity.
  - intros b Hb. pose proof (transition_to_all_or_nothing l s tb now) as H.
    destruct (transition_to s tb now l) as [[u|e] l'].
    + destruct H as (_ & _ & (a & Ha & Hset & _ & Hr) & _).
      rewrite Hb in Ha. injection Ha as <-. split; assumption.
    + destruct H as (_ & _ & ->). reflexivity.
Qed.

(* ------------------------------------------------------------------ *)
(** ** The ingestion use case *)

Section IngestionProofs.

Variable listing_save_fails : ProductListing -> bool.
Variable history_save_fails : nat -> ListingState -> bool.
Variable publish_fails : DomainEvent -> bool.

Ltac unfold_ports :=
  unfold uuid4, utcnow, listing_repo_save, history_repo_save, on_listing,
    publish_many, publish, collect_events, mbind, ST_bind, st_bind, st_get,
    st_put, st_modify, st_ret, st_raise, mret, ST_ret in *.

Lemma create_one_spec (inp : CreateListingsFromScraperInput) (m : ScraperMatch) (w : World) :
  let u := next_uuid w in
  let l := built_listing inp u (clock w) m in
  let '(r, w') := create_one listing_save_fails history_save_fails publish_fails inp m w in
  r = (if match_ok listing_save_fails history_save_fails publish_fails inp u (clock w) m
       then Ok u else Err PortError) /\
  next_uuid w' = S u /\ clock w' = clock w /\
  (exists rows, history w' = history w ++ rows /\
     Forall (fun h => h_listing_id h = u /\ h_from_state h = None /\ h_to_state h = FOUND) rows /\
     length rows <= 1 /\
     (match_ok listing_save_fails history_save_fails publish_fails inp u (clock w) m = true ->
        length rows = 1)) /\
  (exists evs, published w' = published w ++ evs /\
     Forall (fun e => event_listing_id e = Some u) evs /\
     (listing_save_fails l = true -> evs = [])).
Proof.
  cbn zeta. unfold create_one, match_ok, built_listing. unfold_ports. cbn.
  destruct (listing_save_fails _) eqn:H1; cbn.
  { repeat split; [exists []; cbn; rewrite app_nil_r; repeat split; auto; lia
                  |exists []; cbn; rewrite app_nil_r; repeat split; auto]. }
  destruct (history_save_fails _ _) eqn:H2; cbn.
  { repeat split; [exists []; cbn; rewrite app_nil_r; repeat split; auto; lia
                  |exists []; cbn; rewrite app_nil_r; repeat split; auto]. }
  destruct (publish_fails _) eqn:H3; cbn.
  - repeat split.
    + eexists. split; [reflexivity|]. repeat constructor.
    + exists []; cbn; rewrite app_nil_r; repeat split; auto.
  - repeat split.
    + eexists. split; [reflexivity|]. repeat constructor.
    + eexists. split; [reflexivity|]. split; [repeat constructor|discriminate].
Qed.

Lemma execute_matches_spec (inp : CreateListingsFromScraperInput) (ms : list ScraperMatch) :
  forall (created : list nat) (skipped : nat) (w : World),
  let u := next_uuid w in
  let '(r, w') := execute_matches listing_save_fails history_save_fails publish_fails
                    inp ms created skipped w in
  exists C Sk rows evs,
    r = Ok (created ++ C, skipped + Sk) /\
    C = ok_ids listing_save_fails history_save_fails publish_fails inp u (clock w) ms /\
    length C + Sk = length ms /\
    next_uuid w' = u + length ms /\ clock w' = clock w /\
    history w' = history w ++ rows /\ published w' = published w ++ evs /\
    Forall (fun h => u <= h_listing_id h < u + length ms /\
                     h_from_state h = None /\ h_to_state h = FOUND) rows /\
    NoDup (map h_listing_id rows) /\
    (forall lid, lid ∈ C -> lid ∈ map h_listing_id rows) /\
    Forall (fun e => exists i, event_listing_id e = Some i /\ u <= i < u + length ms) evs /\
    (forall k m, ms !! k = Some m ->
       listing_save_fails (built_listing inp (u + k) (clock w) m) = true ->
       Forall (fun e => event_listing_id e <> Some (u + k)) evs).
Proof.
  induction ms as [|m ms IH]; intros created skipped w; cbn zeta.
  - cbn. exists [], 0, [], []. rewrite !app_nil_r, Nat.add_0_r.
    do 7 (split; [first [reflexivity | lia]|]).
    split; [constructor|]. split; [constructor|].
    split; [intros lid Hin; inversion Hin|].
    split; [constructor|].
    intros k m Hk. discriminate Hk.
  - cbn [execute_matches].
    unfold mbind, ST_bind, st_bind, st_try, st_ret, mret, ST_ret.
    pose proof (create_one_spec inp m w) as Hs. cbn zeta in Hs.
    destruct (create_one _ _ _ inp m w) as [r1 w1] eqn:E.
    destruct Hs as (Hr & Hu & Hc & (rows0 & Hh0 & Hrows0 & Hlen0 & Hok0)
                    & (evs0 & Hp0 & Hevs0 & Hsave0)).
    set (u := next_uuid w) in *.
    destruct (match_ok _ _ _ inp u (clock w) m) eqn:Hok; subst r1.
    + specialize (IH (created ++ [u]) skipped w1). cbn zeta in IH.
      destruct (execute_matches _ _ _ inp ms (created ++ [u]) skipped w1) as [r2 w2].
      destruct IH as (C & Sk & rows & evs & Hr2 & HC & Hlen & Hu2 & Hc2 & Hh2 & Hp2
                      & Hrows & Hnd & Hin & Hevs & Hsave).
      rewrite Hu, Hc in *.
      exists (u :: C), Sk, (rows0 ++ rows), (evs0 ++ evs).
      specialize (Hok0 eq_refl).
      destruct rows0 as [|r0 [|]]; cbn in Hok0; try discriminate Hok0; try (cbn in Hlen0; lia).
      rewrite Forall_cons in Hrows0. destruct Hrows0 as [(Hr0 & Hfr0 & Hto0) _].
      split; [rewrite Hr2, <- app_assoc; reflexivity|].
      split; [cbn; rewrite Hok, HC; reflexivity|].
      split; [cbn; lia|].
      split; [cbn; lia|].
      split; [exact Hc2|].
      split; [rewrite Hh2, Hh0, <- app_assoc; reflexivity|].
      split; [rewrite Hp2, Hp0, <- app_assoc; reflexivity|].
      split.
      { constructor; [cbn; rewrite Hr0; repeat split; first [lia | assumption]|].
        eapply Forall_impl; [exact Hrows|]. cbn. intros h (Hb & Hf & Ht).
        repeat split; first [lia | assumption]. }
      split.
      { cbn. constructor; [|exact Hnd]. rewrite Hr0. intros Hin'.
        apply list_elem_of_In, in_map_iff in Hin'. destruct Hin' as (h & Hh & Hhin).
        rewrite <- list_elem_of_In in Hhin.
        rewrite Forall_forall in Hrows. apply Hrows in Hhin. lia. }
      split.
      { intros lid Hlid. apply elem_of_cons in Hlid as [->|Hlid].
        - cbn. rewrite Hr0. apply elem_of_cons. left. reflexivity.
        - cbn. apply elem_of_cons. right. apply Hin. exact Hlid. }
      split.
      { apply Forall_app. split.
        - eapply Forall_impl; [exact Hevs0|]. intros e He. exists u. cbn. split; [exact He|lia].
        - eapply Forall_impl; [exact Hevs|]. intros e (i & He & Hi). exists i. cbn. split; [exact He|lia]. }
      { intros [|k] m' Hk Hf.
        - cbn in Hk. injection Hk as <-. rewrite Nat.add_0_r in Hf.
          rewrite (Hsave0 Hf). cbn.
          eapply Forall_impl; [exact Hevs|]. intros e (i & He & Hi). rewrite He.
          intros Heq. injection Heq. lia.
        - cbn in Hk. replace (u + S k) with (S u + k) in * by lia.
          apply Forall_app. split.
          + eapply Forall_impl; [exact Hevs0|]. intros e He. rewrite He.
            intros Heq. injection Heq. lia.
          + exact (Hsave k m' Hk Hf). }
    + specialize (IH created (S skipped) w1). cbn zeta in IH.
      destruct (execute_matches _ _ _ inp ms created (S skipped) w1) as [r2 w2].
      destruct IH as (C & Sk & rows & evs & Hr2 & HC & Hlen & Hu2 & Hc2 & Hh2 & Hp2
                      & Hrows & Hnd & Hin & Hevs & Hsave).
      rewrite Hu, Hc in *.
      exists C, (S Sk), (rows0 ++ rows), (evs0 ++ evs).
      split; [rewrite Hr2; do 2 f_equal; lia|].
      split; [cbn; rewrite Hok; exact HC|].
      split; [cbn; lia|].
      split; [cbn; lia|].
      split; [exact Hc2|].
      split; [rewrite Hh2, Hh0, <- app_assoc; reflexivity|].
      split; [rewrite Hp2, Hp0, <- app_assoc; reflexivity|].
      split.
      { apply Forall_app. split.
        - eapply Forall_impl; [exact Hrows0|]. cbn. intros h (Hb & Hf & Ht). split; [lia|auto].
        - eapply Forall_impl; [exact Hrows|]. cbn. intros h (Hb & Hf & Ht). split; [lia|auto]. }
      split.
      { destruct rows0 as [|r0 [|]]; [exact Hnd| |cbn in Hlen0; lia].
        rewrite Forall_cons in Hrows0. destruct Hrows0 as [(Hr0 & _ & _) _].
        cbn. constructor; [|exact Hnd]. rewrite Hr0. intros Hin'.
        apply list_elem_of_In, in_map_iff in Hin'. destruct Hin' as (h & Hh & Hhin).
        rewrite <- list_elem_of_In in Hhin.
        rewrite Forall_forall in Hrows. apply Hrows in Hhin. lia. }
      split.
      { intros lid Hlid. rewrite map_app. apply elem_of_app. right. apply Hin. exact Hlid. }
      split.
      { apply Forall_app. split.
        - eapply Forall_impl; [exact Hevs0|]. intros e He. exists u. cbn. split; [exact He|lia].
        - eapply Forall_impl; [exact Hevs|]. intros e (i & He & Hi). exists i. cbn. split; [exact He|lia]. }
      { intros [|k] m' Hk Hf.
        - cbn in Hk. injection Hk as <-. rewrite Nat.add_0_r in Hf.
          rewrite (Hsave0 Hf). cbn.
          eapply Forall_impl; [exact Hevs|]. intros e (i & He & Hi). rewrite He.
          intros Heq. injection Heq. lia.
        - cbn in Hk. replace (u + S k) with (S u + k) in * by lia.
          apply Forall_app. split.
          + eapply Forall_impl; [exact Hevs0|]. intros e He. rewrite He.
            intros Heq. injection Heq. lia.
          + exact (Hsave k m' Hk Hf). }
Qed.

Lemma filter_listing_id_single (rows : list StateHistoryRecord) (lid : nat) :
  NoDup (map h_listing_id rows) -> lid ∈ map h_listing_id rows ->
  length (filter (fun h => h_listing_id h = lid) rows) = 1.
Proof.
  induction rows as [|r rows IH]; intros Hnd Hin; cbn [map] in Hnd, Hin.
  - inversion Hin.
  - apply NoDup_cons in Hnd as [Hnotin Hnd].
    rewrite filter_cons. destruct (decide (h_listing_id r = lid)) as [Heq|Hne].
    + cbn. f_equal. subst lid.
      assert (Hz : forall l : list StateHistoryRecord, h_listing_id r ∉ map h_listing_id l ->
                   filter (fun h => h_listing_id h = h_listing_id r) l = []).
      { induction l as [|x l IHl]; intros Hn; cbn [map] in Hn; [reflexivity|].
        rewrite filter_cons. rewrite not_elem_of_cons in Hn. destruct Hn as [Hx Hn].
        destruct (decide (h_listing_id x = h_listing_id r)); [congruence|].
        apply IHl. exact Hn. }
      rewrite (Hz rows Hnotin). reflexivity.
    + apply IH; [exact Hnd|]. apply elem_of_cons in Hin as [Hin|Hin]; [congruence|exact Hin].
Qed.

(** C6: the ingestion use case never raises; each match is processed on
    its own (it is created exactly when all of its port calls succeed,
    whatever happened to the others), created + skipped equals the batch
    size, every created identity has exactly one new history row and every
    new history row goes from null to FOUND, and no event carries the
    identity of a match whose listing could not be persisted.  Building
    the listing from a well-typed match (numeric price and confidence)
    cannot raise, so the failures modelled are those of the ports. *)
Theorem ingestion_isolates_failures (inp : CreateListingsFromScraperInput) (w : World) :
  let u := next_uuid w in
  let '(r, w') := create_listings_execute listing_save_fails history_save_fails publish_fails
                    inp w in
  exists out new_rows new_events,
    r = Ok out /\
    length (created_listing_ids out) + skipped_count out = length (ci_matches inp) /\
    created_listing_ids out =
      ok_ids listing_save_fails history_save_fails publish_fails inp u (clock w) (ci_matches inp) /\
    history w' = history w ++ new_rows /\
    published w' = published w ++ new_events /\
    Forall (fun h => h_from_state h = None /\ h_to_state h = FOUND) new_rows /\
    (forall lid, lid ∈ created_listing_ids out ->
       length (filter (fun h => h_listing_id h = lid) new_rows) = 1) /\
    (forall k m, ci_matches inp !! k = Some m ->
       listing_save_fails (built_listing inp (u + k) (clock w) m) = true ->
       Forall (fun e => event_listing_id e <> Some (u + k)) new_events).
Proof.
  cbn zeta. unfold create_listings_execute, mbind, ST_bind, st_bind, st_ret.
  pose proof (execute_matches_spec inp (ci_matches inp) [] 0 w) as H. cbn zeta in H.
  destruct (execute_matches _ _ _ inp (ci_matches inp) [] 0 w) as [r w'].
  destruct H as (C & Sk & rows & evs & Hr & HC & Hlen & _ & _ & Hh & Hp & Hrows & Hnd
                 & Hin & _ & Hsave).
  subst r. cbn.
  exists (mkCreateOutput C Sk), rows, evs. cbn.
  split; [reflexivity|]. split; [exact Hlen|]. split; [exact HC|].
  split; [exact Hh|]. split; [exact Hp|].
  split.
  { eapply Forall_impl; [exact Hrows|]. intros h (_ & Hf & Ht). split; assumption. }
  split.
  { intros lid Hlid. apply filter_listing_id_single; [exact Hnd|]. apply Hin. exact Hlid. }
  exact Hsave.
Qed.

End IngestionProofs.

(* ------------------------------------------------------------------ *)
(** ** The transition use case *)

Section TransitionProofs.

Variable listing_save_fails : ProductListing -> bool.
Variable history_save_fails : nat -> ListingState -> bool.
Variable publish_fails : DomainEvent -> bool.

Lemma publish_many_ok (evs : list DomainEvent) (w w' : World) (u : unit) :
  publish_many publish_fails evs w = (Ok u, w') ->
  published w' = published w ++ evs /\ listings w' = listings w /\ history w' = history w.
Proof.
  revert w. induction evs as [|e evs IH]; intros w Hp; cbn in Hp.
  - unfold st_ret in Hp. injection Hp as _ <-. rewrite app_nil_r. auto.
  - unfold mbind, ST_bind, st_bind, publish, st_raise, st_modify in Hp.
    destruct (publish_fails e); [discriminate Hp|].
    apply IH in Hp as (Hp & Hl & Hh). cbn in Hp, Hl, Hh.
    rewrite Hp, <- app_assoc. auto.
Qed.

Lemma transition_metadata_carries (inp : TransitionListingStateInput) :
  ("triggered_by"%string, MStr (ti_triggered_by inp)) ∈ transition_metadata inp /\
  (forall r, ti_reason inp = Some r -> r <> ""%string ->
     ("reason"%string, MStr r) ∈ transition_metadata inp).
Proof.
  unfold transition_metadata. split.
  - apply elem_of_app. left. apply list_elem_of_singleton. reflexivity.
  - intros r -> Hne. destruct (decide (r = ""%string)); [contradiction|].
    apply elem_of_app. right. apply list_elem_of_singleton. reflexivity.
Qed.

(** C7: an unknown identity raises [ListingNotFoundError], a different
    exception from [InvalidStateTransitionError]; a disallowed transition
    raises [InvalidStateTransitionError] unchanged and leaves the world as
    it was (nothing saved, no history, nothing published); a successful run
    saves the transitioned aggregate, appends exactly one history record
    carrying the actor (and a non-empty reason) and publishes the drained
    events. *)
Theorem transition_use_case_outcomes (inp : TransitionListingStateInput) (w : World) :
  (forall a f t, ListingNotFoundError a <> InvalidStateTransitionError f t) /\
  match listings w !! ti_listing_id inp with
  | None =>
      transition_execute listing_save_fails history_save_fails publish_fails inp w =
        (Err (ListingNotFoundError (ti_listing_id inp)), w)
  | Some l =>
      if can_transition (state l) (ti_to_state inp) then
        match transition_execute listing_save_fails history_save_fails publish_fails inp w with
        | (Ok out, w') =>
            let l1 := snd (transition_to (ti_to_state inp) (ti_triggered_by inp) (clock w) l) in
            listings w' = <[id l1 := l1]> (listings w) /\
            history w' = history w ++
              [mkHistory (id l) (Some (state l)) (ti_to_state inp) (clock w)
                 (ti_triggered_by inp) (transition_metadata inp)] /\
            ("triggered_by"%string, MStr (ti_triggered_by inp)) ∈ transition_metadata inp /\
            (forall r, ti_reason inp = Some r -> r <> ""%string ->
               ("reason"%string, MStr r) ∈ transition_metadata inp) /\
            published w' = published w ++ _events l1 /\
            out = mkTransitionOutput (id l) (state l) (ti_to_state inp)
        | (Err _, _) => True
        end
      else
        transition_execute listing_save_fails history_save_fails publish_fails inp w =
          (Err (InvalidStateTransitionError (state l) (ti_to_state inp)), w)
  end.
Proof.
  split; [intros a f t; discriminate|].
  unfold transition_execute, listing_repo_get_by_id, utcnow, on_listing,
    listing_repo_save, history_repo_save, collect_events, mbind, ST_bind, st_bind,
    st_get, st_put, st_modify, st_ret, st_raise, mret, ST_ret.
  destruct (listings w !! ti_listing_id inp) as [l|] eqn:Hl; [|reflexivity].
  pose proof (transition_to_all_or_nothing l (ti_to_state inp) (ti_triggered_by inp) (clock w))
    as Ht.
  pose proof (transition_to_id (ti_to_state inp) (ti_triggered_by inp) (clock w) l) as Hid.
  destruct (transition_to _ _ _ l) as [[u0|e] l1] eqn:Et; cbn in Hid.
  2:{ destruct Ht as (Hc & -> & ->). rewrite Hc. reflexivity. }
  destruct Ht as (Hc & _ & _ & Hev). rewrite Hc.
  destruct (listing_save_fails l1) eqn:Hs; [exact I|].
  destruct (history_save_fails (id l1) (ti_to_state inp)) eqn:Hh; [exact I|].
  unfold utcnow, st_get, mbind, ST_bind, st_bind, st_ret. cbn -[publish_many transition_metadata].
  rewrite Hid.
  destruct (publish_many publish_fails (_events l1) _) as [[u|e] w'] eqn:Ep; [|exact I].
  apply publish_many_ok in Ep as (Hp & Hl' & Hh').
  cbn in Hp, Hl', Hh'. cbn.
  pose proof (transition_metadata_carries inp) as [Hm1 Hm2].
  rewrite id_set_events, Hid, Hp, Hl', Hh'.
  repeat split; assumption.
Qed.

End TransitionProofs.

(* ------------------------------------------------------------------ *)
(** ** The polling coordinator *)

Section PollingProofs.

Variable get_job_status : nat -> option StatusData.
Variable ingest_raises : nat -> bool.

Local Abbreviation loop := (poll_loop get_job_status ingest_raises).

Lemma poll_loop_never_out_of_fuel (fuel : nat) :
  forall pc c, max_polls - pc < fuel -> snd (loop fuel pc c) <> PollOutOfFuel.
Proof.
  induction fuel as [|fuel IH]; intros pc c Hf; cbn [poll_loop].
  - lia.
  - destruct (Nat.ltb_spec pc max_polls) as [Hlt|Hge]; [|discriminate].
    destruct (get_job_status c) as [sd|].
    + destruct (status_is sd "completed").
      * destruct (sd_matches sd) as [|m ms]; [discriminate|].
        destruct (ingest_raises c); [|discriminate].
        pose proof (IH (pc + 1 + 1) (S c) ltac:(lia)) as H.
        destruct (loop fuel (pc + 1 + 1) (S c)). exact H.
      * destruct (status_is sd "failed" || status_is sd "error"); [discriminate|].
        pose proof (IH (pc + 1) (S c) ltac:(lia)) as H.
        destruct (loop fuel (pc + 1) (S c)).
        destruct (status_is sd "pending" || status_is sd "running"); exact H.
    + pose proof (IH (pc + 1 + 1) (S c) ltac:(lia)) as H.
      destruct (loop fuel (pc + 1 + 1) (S c)). exact H.
Qed.

Lemma poll_loop_outcome_source (fuel : nat) :
  forall pc c,
  let '(tr, o) := loop fuel pc c in
  (o = PollCompleted ->
     exists k sd, c <= k /\ get_job_status k = Some sd /\ status_is sd "completed" = true) /\
  (o = PollFailed ->
     exists k sd, c <= k /\ get_job_status k = Some sd /\
       (status_is sd "failed" || status_is sd "error") = true).
Proof.
  induction fuel as [|fuel IH]; intros pc c; cbn [poll_loop].
  - split; discriminate.
  - destruct (pc <? max_polls); [|split; discriminate].
    destruct (get_job_status c) as [sd|] eqn:Hg.
    + destruct (status_is sd "completed") eqn:Hc.
      * destruct (sd_matches sd) as [|m ms].
        { split; [intros _; exists c, sd; auto|discriminate]. }
        destruct (ingest_raises c).
        { specialize (IH (pc + 1 + 1) (S c)). destruct (loop fuel (pc + 1 + 1) (S c)) as [tr o].
          destruct IH as [IH1 IH2]. split.
          - intros Ho. destruct (IH1 Ho) as (k & sd' & Hk & ?). exists k, sd'. split; [lia|auto].
          - intros Ho. destruct (IH2 Ho) as (k & sd' & Hk & ?). exists k, sd'. split; [lia|auto]. }
        { split; [intros _; exists c, sd; auto|discriminate]. }
      * destruct (status_is sd "failed" || status_is sd "error") eqn:Hf.
        { split; [discriminate|intros _; exists c, sd; auto]. }
        specialize (IH (pc + 1) (S c)). destruct (loop fuel (pc + 1) (S c)) as [tr o].
        destruct IH as [IH1 IH2].
        assert (H : (o = PollCompleted ->
          exists k sd, c <= k /\ get_job_status k = Some sd /\ status_is sd "completed" = true) /\
          (o = PollFailed -> exists k sd, c <= k /\ get_job_status k = Some sd /\
             (status_is sd "failed" || status_is sd "error") = true)).
        { split.
          - intros Ho. destruct (IH1 Ho) as (k & sd' & Hk & ?). exists k, sd'. split; [lia|auto].
          - intros Ho. destruct (IH2 Ho) as (k & sd' & Hk & ?). exists k, sd'. split; [lia|auto]. }
        destruct (status_is sd "pending" || status_is sd "running"); exact H.
    + specialize (IH (pc + 1 + 1) (S c)). destruct (loop fuel (pc + 1 + 1) (S c)) as [tr o].
      destruct IH as [IH1 IH2]. split.
      * intros Ho. destruct (IH1 Ho) as (k & sd' & Hk & ?). exists k, sd'. split; [lia|auto].
      * intros Ho. destruct (IH2 Ho) as (k & sd' & Hk & ?). exists k, sd'. split; [lia|auto].
Qed.

Lemma count_effect_app (p : PollEffect -> bool) (l1 l2 : list PollEffect) :
  count_effect p (l1 ++ l2) = count_effect p l1 + count_effect p l2.
Proof. unfold count_effect. rewrite filter_app. apply length_app. Qed.

Lemma ingest_calls_app (l1 l2 : list PollEffect) :
  ingest_calls (l1 ++ l2) = ingest_calls l1 ++ ingest_calls l2.
Proof. induction l1 as [|[] l1 IH]; cbn; rewrite ?IH; reflexivity. Qed.

(** Without raising queries or ingestions, the loop started at query
    [pc] with [n] attempts left releases once and ends as the first
    non-retried status among those [n] queries says. *)
Lemma poll_loop_no_raise
    (Hg : forall k, get_job_status k <> None) (Hi : forall k, ingest_raises k = false) :
  forall n fuel pc, pc + n = max_polls -> n < fuel ->
  let '(tr, o) := loop fuel pc pc in
  count_effect is_stop tr = 1 /\
  match first_decisive get_job_status pc n with
  | Some (_, sd) =>
      match classify sd with
      | KCompleted =>
          o = PollCompleted /\
          ingest_calls tr = match sd_matches sd with [] => [] | ms => [ms] end
      | _ => o = PollFailed /\ ingest_calls tr = []
      end
  | None => o = PollTimedOut /\ ingest_calls tr = [] /\ count_effect is_query tr = n
  end.
Proof.
  induction n as [|n IH]; intros fuel pc Hpc Hf; (destruct fuel as [|fuel]; [lia|]);
    cbn [poll_loop first_decisive].
  - replace (pc <? max_polls) with false by (symmetry; apply Nat.ltb_ge; lia).
    repeat split.
  - replace (pc <? max_polls) with true by (symmetry; apply Nat.ltb_lt; lia).
    destruct (get_job_status pc) as [sd|] eqn:Hsd; [|exfalso; exact (Hg pc Hsd)].
    destruct (status_is sd "completed") eqn:Hc.
    + assert (Hk : classify sd = KCompleted) by (unfold classify; rewrite Hc; reflexivity).
      rewrite Hk. cbn beta iota. rewrite ?Hk.
      destruct (sd_matches sd) as [|m ms]; [repeat split|].
      rewrite Hi. cbn beta iota. rewrite ?Hk. repeat split.
    + destruct (status_is sd "failed" || status_is sd "error") eqn:Hfe.
      { assert (Hk : classify sd = KFailed) by (unfold classify; rewrite Hc, Hfe; reflexivity).
        rewrite Hk. cbn beta iota. rewrite ?Hk. repeat split. }
      assert (Hk : classify sd = KRetry) by (unfold classify; rewrite Hc, Hfe; reflexivity).
      rewrite Hk.
      specialize (IH fuel (S pc) ltac:(lia) ltac:(lia)).
      replace (pc + 1) with (S pc) by lia.
      destruct (loop fuel (S pc) (S pc)) as [tr o].
      destruct IH as [Hs IH].
      assert (Hq' : forall pre, count_effect is_stop pre = 0 -> ingest_calls pre = [] ->
        count_effect is_query pre = 1 ->
        let '(tr0, o0) := (pre ++ tr, o) in
        count_effect is_stop tr0 = 1 /\
        match first_decisive get_job_status (S pc) n with
        | Some (_, sd0) =>
            match classify sd0 with
            | KCompleted => o0 = PollCompleted /\
                ingest_calls tr0 = match sd_matches sd0 with [] => [] | ms => [ms] end
            | _ => o0 = PollFailed /\ ingest_calls tr0 = []
            end
        | None => o0 = PollTimedOut /\ ingest_calls tr0 = [] /\ count_effect is_query tr0 = S n
        end).
      { intros pre Hs0 Hi0 Hq0. cbn beta iota.
        rewrite count_effect_app, Hs0, Hs. split; [reflexivity|].
        destruct (first_decisive get_job_status (S pc) n) as [[k sd']|].
        - destruct (classify sd'); rewrite ingest_calls_app, Hi0; exact IH.
        - destruct IH as (Ho & Hin & Hq). rewrite ingest_calls_app, Hi0, count_effect_app, Hq0, Hq.
          auto. }
      destruct (status_is sd "pending" || status_is sd "running");
        [apply (Hq' [Sleep; QueryStatus]) | apply (Hq' [Sleep; QueryStatus; LogUnknownStatus])];
        reflexivity.
Qed.

Lemma status_is_false_of_not_in (sd : StatusData) (s : string) (l : list string) :
  sd_status sd ∉ map Some l -> s ∈ l -> status_is sd s = false.
Proof.
  intros Hn Hs. unfold status_is. apply bool_decide_eq_false_2. intros Heq.
  apply Hn. rewrite Heq. apply list_elem_of_fmap_2. exact Hs.
Qed.

(** C4 (amended): when no status query and no ingestion raises, every run
    attempts the release exactly once and ends as the first completed,
    failed or error status among the first [max_polls] = 40 queries says
    (pending, running and unrecognised statuses are all retried):
    completed ingests its match list exactly once when it is non-empty and
    not at all when it is empty; failed/error ingests nothing; with no such
    status in 40 queries the run makes 40 queries, times out and ingests
    nothing. *)
Theorem poll_run_outcomes
    (Hg : forall k, get_job_status k <> None) (Hi : forall k, ingest_raises k = false) :
  let '(tr, o) := poll_scraper_and_process get_job_status ingest_raises in
  count_effect is_stop tr = 1 /\
  match first_decisive get_job_status 0 max_polls with
  | Some (_, sd) =>
      match classify sd with
      | KCompleted =>
          o = PollCompleted /\
          ingest_calls tr = match sd_matches sd with [] => [] | ms => [ms] end
      | _ => o = PollFailed /\ ingest_calls tr = []
      end
  | None => o = PollTimedOut /\ ingest_calls tr = [] /\ count_effect is_query tr = max_polls
  end.
Proof.
  exact (poll_loop_no_raise Hg Hi max_polls (S max_polls) 0 eq_refl (Nat.lt_succ_diag_r _)).
Qed.

(** C9: a query answered with a status outside completed, failed, error,
    pending and running logs a warning and the loop goes on with the next
    attempt; and a run only ends as completed after a completed status,
    as failed after a failed or error status, otherwise by the attempt
    ceiling (never for lack of fuel). *)
Theorem poll_unknown_status_is_retried (fuel pc c : nat) (sd : StatusData)
    (Hpc : pc < max_polls) (Hsd : get_job_status c = Some sd)
    (Hunk : sd_status sd ∉ map Some ["completed"; "failed"; "error"; "pending"; "running"]%string) :
  loop (S fuel) pc c =
    (let '(tr, o) := loop fuel (pc + 1) (S c) in
     ([Sleep; QueryStatus; LogUnknownStatus] ++ tr, o)) /\
  let '(_, o) := poll_scraper_and_process get_job_status ingest_raises in
  o <> PollOutOfFuel /\
  (o = PollCompleted ->
     exists k sd', get_job_status k = Some sd' /\ sd_status sd' = Some "completed"%string) /\
  (o = PollFailed ->
     exists k sd', get_job_status k = Some sd' /\
       (sd_status sd' = Some "failed"%string \/ sd_status sd' = Some "error"%string)).
Proof.
  split.
  - cbn [poll_loop].
    replace (pc <? max_polls) with true by (symmetry; apply Nat.ltb_lt; exact Hpc).
    rewrite Hsd.
    rewrite (status_is_false_of_not_in sd "completed" _ Hunk) by set_solver.
    rewrite (status_is_false_of_not_in sd "failed" _ Hunk) by set_solver.
    rewrite (status_is_false_of_not_in sd "error" _ Hunk) by set_solver.
    rewrite (status_is_false_of_not_in sd "pending" _ Hunk) by set_solver.
    rewrite (status_is_false_of_not_in sd "running" _ Hunk) by set_solver.
    reflexivity.
  - unfold poll_scraper_and_process.
    pose proof (poll_loop_never_out_of_fuel (S max_polls) 0 0
                  ltac:(unfold max_polls; lia)) as Hnf.
    pose proof (poll_loop_outcome_source (S max_polls) 0 0) as Hsrc.
    destruct (loop (S max_polls) 0 0) as [tr o]. cbn in Hnf.
    destruct Hsrc as [H1 H2].
    split; [exact Hnf|]. split.
    + intros Ho. destruct (H1 Ho) as (k & sd' & _ & Hk & Hs).
      exists k, sd'. split; [exact Hk|]. unfold status_is in Hs.
      apply bool_decide_eq_true in Hs. exact Hs.
    + intros Ho. destruct (H2 Ho) as (k & sd' & _ & Hk & Hs).
      exists k, sd'. split; [exact Hk|]. unfold status_is in Hs.
      apply orb_true_iff in Hs as [Hs|Hs]; apply bool_decide_eq_true in Hs; auto.
Qed.

(** C10: a completed status whose match list is empty ends the run at that
    attempt as a success, with no ingestion and exactly one attempted
    release. *)
Theorem poll_completed_without_matches (fuel pc c : nat) (sd : StatusData)
    (Hpc : pc < max_polls) (Hsd : get_job_status c = Some sd)
    (Hst : sd_status sd = Some "completed"%string) (Hm : sd_matches sd = []) :
  let '(tr, o) := loop (S fuel) pc c in
  tr = [Sleep; QueryStatus; StopContainer] /\ o = PollCompleted /\
  ingest_calls tr = [] /\ count_effect is_stop tr = 1.
Proof.
  cbn [poll_loop].
  replace (pc <? max_polls) with true by (symmetry; apply Nat.ltb_lt; exact Hpc).
  rewrite Hsd.
  replace (status_is sd "completed") with true
    by (symmetry; unfold status_is; apply bool_decide_eq_true; exact Hst).
  rewrite Hm. repeat split.
Qed.

End PollingProofs.

(** C3 (code defect): when [get_job_status] raises, the attempt has already
    counted itself ([poll_count += 1] inside [try]) and the [except] branch
    counts it again, so a failing attempt consumes two of the 40; a run in
    which every query raises ends after 20 queries. *)
Theorem poll_error_consumes_two_attempts :
  (forall (gjs : nat -> option StatusData) (ir : nat -> bool) (fuel pc c : nat),
     pc < max_polls -> gjs c = None ->
     poll_loop gjs ir (S fuel) pc c =
       let '(tr, o) := poll_loop gjs ir fuel (pc + 2) (S c) in
       ([Sleep; QueryStatus] ++ tr, o)) /\
  let '(tr, o) := poll_scraper_and_process (fun _ => None) (fun _ => false) in
  count_effect is_query tr = 20 /\ o = PollTimedOut.
Proof.
  split.
  - intros gjs ir fuel pc c Hpc Hg. cbn [poll_loop].
    replace (pc <? max_polls) with true by (symmetry; apply Nat.ltb_lt; exact Hpc).
    rewrite Hg. replace (pc + 1 + 1) with (pc + 2) by lia. reflexivity.
  - vm_compute. split; reflexivity.
Qed.

(** C4 (as stated, refuted): a completed status with an empty match list
    ends the run as a success without any ingestion call; and a completed
    status that only arrives at the 41st query is never seen (the run
    times out without ingesting). *)
Lemma poll_completed_not_always_ingested :
  (let '(tr, o) := poll_scraper_and_process
                     (fun _ => Some (status_payload "completed" [])) (fun _ => false) in
   o = PollCompleted /\ length (ingest_calls tr) = 0) /\
  (let '(tr, o) := poll_scraper_and_process
                     (fun k => Some (if k <? max_polls then status_payload "running" [sample_match]
                                     else status_payload "completed" [sample_match]))
                     (fun _ => false) in
   o = PollTimedOut /\ length (ingest_calls tr) = 0).
Proof. vm_compute. repeat split. Qed.

Lemma poll_run_outcomes_witness :
  (forall k, running_then_completed k <> None) /\
  (forall k : nat, (fun _ => false) k = false) /\
  (let '(tr, o) := poll_scraper_and_process running_then_completed (fun _ => false) in
   count_effect is_stop tr = 1 /\
   match first_decisive running_then_completed 0 max_polls with
   | Some (_, sd) =>
       match classify sd with
       | KCompleted =>
           o = PollCompleted /\
           ingest_calls tr = match sd_matches sd with [] => [] | ms => [ms] end
       | _ => o = PollFailed /\ ingest_calls tr = []
       end
   | None => o = PollTimedOut /\ ingest_calls tr = [] /\ count_effect is_query tr = max_polls
   end).
Proof.
  assert (Hg : forall k, running_then_completed k <> None) by (intros k; discriminate).
  assert (Hi : forall k : nat, (fun _ : nat => false) k = false) by reflexivity.
  split; [exact Hg|]. split; [exact Hi|].
  exact (poll_run_outcomes running_then_completed (fun _ => false) Hg Hi).
Defined.

Lemma poll_unknown_status_is_retried_witness :
  0 < max_polls /\
  Some (status_payload "queued" []) = Some (status_payload "queued" []) /\
  (sd_status (status_payload "queued" [])
     ∉ map Some ["completed"; "failed"; "error"; "pending"; "running"]%string) /\
  poll_loop (fun _ => Some (status_payload "queued" [])) (fun _ => false) 41 0 0 =
    (let '(tr, o) := poll_loop (fun _ => Some (status_payload "queued" [])) (fun _ => false)
                       40 (0 + 1) 1 in
     ([Sleep; QueryStatus; LogUnknownStatus] ++ tr, o)).
Proof.
  assert (Hpc : 0 < max_polls) by (unfold max_polls; lia).
  assert (Hunk : sd_status (status_payload "queued" [])
                   ∉ map Some ["completed"; "failed"; "error"; "pending"; "running"]%string)
    by (cbn; intros H; repeat (apply elem_of_cons in H as [H|H]; [discriminate H|]);
        inversion H).
  split; [exact Hpc|]. split; [reflexivity|]. split; [exact Hunk|].
  exact (proj1 (poll_unknown_status_is_retried (fun _ => Some (status_payload "queued" []))
                  (fun _ => false) 40 0 0 _ Hpc eq_refl Hunk)).
Defined.

Lemma poll_completed_without_matches_witness :
  0 < max_polls /\
  sd_status (status_payload "completed" []) = Some "completed"%string /\
  sd_matches (status_payload "completed" []) = [] /\
  (let '(tr, o) := poll_loop (fun _ => Some (status_payload "completed" [])) (fun _ => false)
                     1 0 0 in
   tr = [Sleep; QueryStatus; StopContainer] /\ o = PollCompleted /\
   ingest_calls tr = [] /\ count_effect is_stop tr = 1).
Proof.
  assert (Hpc : 0 < max_polls) by (unfold max_polls; lia).
  split; [exact Hpc|]. split; [reflexivity|]. split; [reflexivity|].
  exact (poll_completed_without_matches (fun _ => Some (status_payload "completed" []))
           (fun _ => false) 0 0 0 _ Hpc eq_refl eq_refl eq_refl).
Defined.

(** The spec's ingestion scenario: of two matches, the second fails at
    persistence; one listing is created, one is skipped, and the only
    published event is the first listing's creation event. *)
Example ingestion_one_persistence_failure :
  let inp := mkCreateInput 7 "Sony" [sample_match; sample_match] in
  let w := mkWorld ∅ [] [] 1 0 in
  let '(r, w') := create_listings_execute (fun l => bool_decide (id l = 2)) (fun _ _ => false)
                    (fun _ => false) inp w in
  r = Ok (mkCreateOutput [1] 1) /\ length (history w') = 1 /\
  map event_listing_id (published w') = [Some 1].
Proof. vm_compute. repeat split. Qed.

(* ------------------------------------------------------------------ *)
(** ** Further properties of the state machine and the aggregate *)

Lemma id_set_error msg now l : id (set_error msg now l) = id l.
Proof. destruct l; reflexivity. Qed.

Lemma state_set_error msg now l : state (set_error msg now l) = state l.
Proof. destruct l; reflexivity. Qed.

Lemma events_set_error msg now l : _events (set_error msg now l) = _events l.
Proof. destruct l; reflexivity. Qed.

Lemma record_error_snd l msg now : snd (record_error msg now l) = set_error msg now l.
Proof. reflexivity. Qed.

Lemma collect_events_snd l : snd (collect_events l) = set_events [] l.
Proof. reflexivity. Qed.

Lemma get_ts_create a fid now pid url ttl price job br md conf prof :
  get_ts a (create_from_scraper_match fid now pid url ttl price job br md conf prof) = None.
Proof. destruct a; reflexivity. Qed.

(** What one [transition_to] call does, as used by the invariants below. *)
Lemma transition_to_step (s : ListingState) (tb : string) (now : Z) (l : ProductListing) r l' :
  transition_to s tb now l = (r, l') ->
  id l' = id l /\
  ((r = Ok tt /\ can_transition (state l) s = true /\ state l' = s /\
    _events l' = _events l ++ [ListingStateChangedEvent (id l) (Some (state l)) s tb] /\
    exists a, lifecycle_attr s = Some a /\ get_ts a l' = Some now /\
      forall b, b <> a -> get_ts b l' = get_ts b l) \/
   (can_transition (state l) s = false /\ l' = l)).
Proof.
  intros Ht. rewrite transition_to_eq in Ht.
  destruct (can_transition (state l) s) eqn:Hc; injection Ht as <- <-; [|auto].
  destruct (lifecycle_attr s) as [a|] eqn:Ha.
  - split.
    { rewrite id_set_events, id_set_ts. apply id_set_state_fields. }
    left. split; [reflexivity|]. split; [reflexivity|].
    split; [rewrite state_set_events, state_set_ts; apply state_set_state_fields|].
    split.
    { rewrite events_set_events, events_set_ts, events_set_state_fields, id_set_ts, id_set_state_fields. reflexivity. }
    exists a. split; [reflexivity|]. split.
    + rewrite get_ts_set_events. apply get_ts_set_ts_eq.
    + intros b Hb. rewrite get_ts_set_events, get_ts_set_ts_neq by exact Hb.
      apply get_ts_set_state_fields.
  - destruct s; try discriminate Ha. rewrite can_transition_not_found in Hc. discriminate.
Qed.

Lemma can_transition_from_terminal (f t : ListingState) :
  can_transition f t = true -> f <> CANCELLED /\ f <> SOLD.
Proof. destruct f, t; cbv; intros H; first [discriminate H | split; discriminate]. Qed.

Lemma can_transition_forward (f t : ListingState) :
  can_transition f t = true -> t <> CANCELLED -> rank t = S (rank f).
Proof. destruct f, t; cbv; intros H Hn; first [discriminate H | reflexivity | congruence]. Qed.

Lemma can_transition_to_cancelled (f : ListingState) :
  can_transition f CANCELLED = true -> rank f <= rank PURCHASED.
Proof. destruct f; cbv; intros H; first [discriminate H | lia]. Qed.

Lemma rank_inj (x y : ListingState) : rank x = rank y -> x = y.
Proof. destruct x, y; cbv; intros H; first [reflexivity | discriminate H]. Qed.

Lemma attr_state_inj (a b : LifecycleAttr) : attr_state a = attr_state b -> a = b.
Proof. destruct a, b; cbv; intros H; first [reflexivity | discriminate H]. Qed.

Lemma attr_state_rank (a : LifecycleAttr) : 1 <= rank (attr_state a).
Proof. destruct a; cbv; lia. Qed.

Lemma attr_state_not_cancelled (a : LifecycleAttr) :
  a <> cancelled_at_attr -> attr_state a <> CANCELLED /\ rank (attr_state a) <= rank SOLD.
Proof. destruct a; cbv; intros H; first [congruence | split; [discriminate | lia]]. Qed.

Lemma state_changes_app (e1 e2 : list DomainEvent) :
  state_changes (e1 ++ e2) = state_changes e1 ++ state_changes e2.
Proof. induction e1 as [|[] e1 IH]; cbn; rewrite ?IH; reflexivity. Qed.

Lemma replay_snoc (cs : list (option ListingState * ListingState)) :
  forall s0 f t, replay s0 cs = Some f -> can_transition f t = true ->
  replay s0 (cs ++ [(Some f, t)]) = Some t.
Proof.
  induction cs as [|[[f'|] t'] cs IH]; intros s0 f t Hr Hc; cbn in Hr |- *.
  - injection Hr as ->. destruct (decide (f = f)) as [_|]; [|congruence]. rewrite Hc. reflexivity.
  - destruct (decide (f' = s0)); [|discriminate Hr].
    destruct (can_transition f' t'); [|discriminate Hr]. apply IH; assumption.
  - discriminate Hr.
Qed.

(** Length of the longest path from a state in the transition table. *)
Definition depth (s : ListingState) : nat :=
  match s with
  | FOUND => 6 | MESSAGING => 5 | NEGOTIATING => 4 | PURCHASED => 3
  | RECEIVED => 2 | LISTED => 1 | SOLD => 0 | CANCELLED => 0
  end.

Lemma can_transition_depth (f t : ListingState) :
  can_transition f t = true -> depth t < depth f.
Proof. destruct f, t; cbv; intros H; first [discriminate H | lia]. Qed.

Lemma depth_le (s : ListingState) : depth s <= 6.
Proof. destruct s; cbv; lia. Qed.

Lemma run_transitions_chain (steps : list (ListingState * string * Z)) :
  forall l l', run_transitions steps l = (Ok tt, l') ->
  length steps <= depth (state l) /\
  Forall (fun t => rank (state l) < rank t) (map (fun '(s, _, _) => s) steps) /\
  NoDup (state l :: map (fun '(s, _, _) => s) steps).
Proof.
  induction steps as [|[[s tb] now] steps IH]; intros l l' Hrun.
  - cbn. split; [lia|]. split; [constructor|]. constructor; [set_solver|constructor].
  - cbn [run_transitions] in Hrun. unfold mbind, ST_bind, st_bind in Hrun.
    destruct (transition_to s tb now l) as [r1 l1] eqn:Ht.
    pose proof Ht as Ht0.
    apply transition_to_step in Ht as (_ & [(-> & Hc & Hs & _)|(Hc & ->)]).
    2:{ rewrite transition_to_eq, Hc in Ht0. injection Ht0 as <-. discriminate Hrun. }
    destruct (IH l1 l' Hrun) as (Hlen & Hfor & Hnd). rewrite Hs in Hlen, Hfor, Hnd.
    pose proof (can_transition_depth _ _ Hc) as Hd.
    pose proof (can_transition_rank _ _ Hc) as Hr.
    cbn [map length]. split; [lia|]. split.
    + constructor; [exact Hr|]. eapply Forall_impl; [exact Hfor|]. intros x Hx. cbn in Hx |- *. lia.
    + constructor; [|exact Hnd]. intros Hin.
      apply elem_of_cons in Hin as [Heq|Hin]; [rewrite <- Heq in Hr; lia|].
      rewrite Forall_forall in Hfor. specialize (Hfor _ Hin). cbn in Hfor. lia.
Qed.

(** X1: a run of successful transitions never revisits a state (the states
    visited, starting state included, are pairwise distinct), and a
    listing undergoes at most six successful transitions. *)
Theorem run_transitions_bounded (steps : list (ListingState * string * Z)) (l l' : ProductListing)
    (Hrun : run_transitions steps l = (Ok tt, l')) :
  length steps <= 6 /\ NoDup (state l :: map (fun '(s, _, _) => s) steps).
Proof.
  destruct (run_transitions_chain steps l l' Hrun) as (Hlen & _ & Hnd).
  pose proof (depth_le (state l)). split; [lia|exact Hnd].
Qed.

(** X2: the terminal states are exactly those whose allowed set is empty. *)
Theorem terminal_iff_no_transitions (s : ListingState) :
  is_terminal s = true <-> get_allowed_transitions s = [].
Proof. destruct s; cbv; split; intros H; first [reflexivity | discriminate H]. Qed.

(** X3: every event pending in an aggregate built by the factory and changed
    only through its own operations carries that aggregate's identity. *)
Theorem reachable_events_carry_id (l : ProductListing) :
  reachable l -> Forall (fun e => event_listing_id e = Some (id l)) (_events l).
Proof.
  induction 1 as [fid now pid url ttl price job br md conf prof
                 | l s tb now r l' _ IH Ht | l msg now _ IH | l _ IH].
  - repeat constructor.
  - apply transition_to_step in Ht as (Hid & [(_ & _ & _ & Hev & _)|(_ & ->)]); [|exact IH].
    rewrite Hev, Hid. apply Forall_app. split; [exact IH|]. repeat constructor.
  - rewrite record_error_snd, events_set_error, id_set_error. exact IH.
  - rewrite collect_events_snd, events_set_events. constructor.
Qed.

(** X4: in such an aggregate the pending ListingStateChangedEvents record a
    path: replayed from some state, each starts where the previous ended,
    each is an allowed transition, and they end at the current state; while
    the creation event is still pending, the path starts at FOUND. *)
Theorem reachable_events_replay (l : ProductListing) :
  reachable l ->
  (exists s0, replay s0 (state_changes (_events l)) = Some (state l)) /\
  (existsb is_created_event (_events l) = true ->
     replay FOUND (state_changes (_events l)) = Some (state l)).
Proof.
  induction 1 as [fid now pid url ttl price job br md conf prof
                 | l s tb now r l' _ IH Ht | l msg now _ IH | l _ IH].
  - split; [exists FOUND|intros _]; reflexivity.
  - apply transition_to_step in Ht as (_ & [(_ & Hc & Hs & Hev & _)|(_ & ->)]); [|exact IH].
    destruct IH as [(s0 & Hs0) Hf].
    rewrite Hev, Hs, state_changes_app. cbn [state_changes]. split.
    + exists s0. apply replay_snoc; assumption.
    + rewrite existsb_app. cbn [existsb is_created_event]. rewrite orb_false_r.
      intros He. apply replay_snoc; [apply Hf; exact He|exact Hc].
  - rewrite record_error_snd, events_set_error, state_set_error. exact IH.
  - rewrite collect_events_snd, events_set_events, state_set_events.
    split; [exists (state l); reflexivity|discriminate].
Qed.

(** X5: in such an aggregate the lifecycle timestamps record the path taken:
    [cancelled_at] is set exactly when the listing is CANCELLED; otherwise
    a milestone timestamp is set exactly for the states up to the current
    one; a cancelled listing has its milestones set up to the state it was
    cancelled from, which is at most PURCHASED. *)
Theorem reachable_lifecycle_timestamps (l : ProductListing) :
  reachable l ->
  (get_ts cancelled_at_attr l <> None <-> state l = CANCELLED) /\
  (state l <> CANCELLED -> forall a, a <> cancelled_at_attr ->
     get_ts a l <> None <-> rank (attr_state a) <= rank (state l)) /\
  (state l = CANCELLED -> forall a, a <> cancelled_at_attr -> get_ts a l <> None ->
     rank (attr_state a) <= rank PURCHASED /\
     forall b, b <> cancelled_at_attr -> rank (attr_state b) <= rank (attr_state a) ->
       get_ts b l <> None).
Proof.
  induction 1 as [fid now pid url ttl price job br md conf prof
                 | l s tb now r l' _ IH Ht | l msg now _ IH | l _ IH].
  - cbn [state create_from_scraper_match]. rewrite !get_ts_create.
    split; [split; [congruence|discriminate]|]. split.
    + intros _ a _. pose proof (attr_state_rank a). rewrite get_ts_create. cbn. split; [intros Hn; congruence|lia].
    + discriminate.
  - apply transition_to_step in Ht as (_ & [(_ & Hc & Hs & _ & a & Ha & Hset & Hother)|(_ & ->)]);
      [|exact IH].
    destruct IH as (IH1 & IH2 & IH3).
    destruct (can_transition_from_terminal _ _ Hc) as [Hnc _].
    apply lifecycle_attr_state in Ha as Has. rewrite Hs.
    destruct (decide (s = CANCELLED)) as [->|Hsc].
    + assert (a = cancelled_at_attr) as -> by (apply attr_state_inj; exact Has).
      pose proof (can_transition_to_cancelled _ Hc) as Hle.
      split; [rewrite Hset; split; [reflexivity|discriminate]|].
      split; [congruence|]. intros _ b Hb Hbset. rewrite Hother in Hbset by exact Hb.
      apply (IH2 Hnc b Hb) in Hbset. split; [lia|].
      intros b' Hb' Hrk. rewrite Hother by exact Hb'. apply (IH2 Hnc b' Hb'). lia.
    + pose proof (can_transition_forward _ _ Hc Hsc) as Hfw.
      assert (Hac : a <> cancelled_at_attr) by (intros ->; cbn in Has; congruence).
      split.
      { rewrite Hother by congruence. rewrite IH1. split; intros H; congruence. }
      split; [|intros H; congruence].
      intros _ b Hb. destruct (decide (b = a)) as [->|Hba].
      * rewrite Hset, Has. split; [lia|discriminate].
      * rewrite Hother by exact Hba. rewrite (IH2 Hnc b Hb). split; [lia|].
        intros Hle. destruct (decide (rank (attr_state b) = rank s)) as [Heq|Hne]; [|lia].
        apply rank_inj in Heq. rewrite <- Has in Heq. apply attr_state_inj in Heq.
        contradiction.
  - rewrite record_error_snd, state_set_error.
    setoid_rewrite get_ts_set_error. exact IH.
  - rewrite collect_events_snd, state_set_events.
    setoid_rewrite get_ts_set_events. exact IH.
Qed.

(* ------------------------------------------------------------------ *)
(** ** The RabbitMQ publisher *)

(** X6: two events share a routing key exactly when they are of the same
    class and, for state changes, have the same target state: consumers can
    tell creations, scraper jobs and each target state apart. *)
Theorem routing_key_identifies_event (e1 e2 : DomainEvent) :
  _event_to_routing_key e1 = _event_to_routing_key e2 <->
  match e1, e2 with
  | ListingCreatedEvent _ _ _ _ _ _ _ _ _, ListingCreatedEvent _ _ _ _ _ _ _ _ _ => True
  | ListingStateChangedEvent _ _ t1 _, ListingStateChangedEvent _ _ t2 _ => t1 = t2
  | ScraperJobCreatedEvent _ _ _, ScraperJobCreatedEvent _ _ _ => True
  | _, _ => False
  end.
Proof.
  destruct e1 as [| ? ? t1 ? |], e2 as [| ? ? t2 ? |];
    try destruct t1; try destruct t2; vm_compute;
    split; intros H; first [reflexivity | exact I | discriminate H | destruct H].
Qed.

(** X7: [RabbitMQPublisher.publish_many] never raises: it attempts every
    event in order, a failed send is dropped without stopping the later
    ones, and exactly the events whose send succeeded reach the exchange. *)
Theorem rabbitmq_publish_many_never_raises (pf : DomainEvent -> bool) (evs : list DomainEvent)
    (w : World) :
  rabbitmq_publish_many pf evs w =
    (Ok tt, set_published (published w ++ filter (fun e => pf e = false) evs) w).
Proof.
  revert w. induction evs as [|e evs IH]; intros w.
  - cbn. rewrite app_nil_r. destruct w; reflexivity.
  - cbn [rabbitmq_publish_many]. unfold rabbitmq_publish, st_try, publish, mbind, ST_bind,
      st_bind, st_raise, st_modify, st_ret.
    rewrite filter_cons. destruct (pf e) eqn:He.
    + rewrite IH. destruct (decide (true = false)); [discriminate|reflexivity].
    + rewrite IH. destruct (decide (false = false)); [|congruence].
      destruct w; cbn. rewrite <- app_assoc. reflexivity.
Qed.

(* ------------------------------------------------------------------ *)
(** ** GetListingHistory *)

#[local] Instance transitioned_at_total : Total transitioned_at_le.
Proof. intros a b. unfold transitioned_at_le. lia. Qed.

(** X8: GetListingHistory raises ListingNotFoundError for an identity with
    no listing, even when history rows carry it; otherwise it returns
    exactly that listing's history rows, in ascending transitioned_at
    order. It writes nothing. *)
Theorem get_listing_history_outcomes (lid : nat) (w : World) :
  match listings w !! lid with
  | None => get_listing_history_execute lid w = (Err (ListingNotFoundError lid), w)
  | Some _ =>
      exists out, get_listing_history_execute lid w = (Ok out, w) /\
        gh_listing_id out = lid /\
        gh_history out ≡ₚ filter (fun h => h_listing_id h = lid) (history w) /\
        Sorted transitioned_at_le (gh_history out)
  end.
Proof.
  unfold get_listing_history_execute, get_history_for_listing, listing_repo_get_by_id,
    mbind, ST_bind, st_bind, st_get, st_ret, st_raise.
  destruct (listings w !! lid); [|reflexivity].
  eexists. split; [reflexivity|]. cbn. split; [reflexivity|]. split.
  - apply merge_sort_Permutation.
  - apply Sorted_merge_sort. apply transitioned_at_total.
Qed.

(* ------------------------------------------------------------------ *)
(** ** Shape of every polling run *)

Lemma poll_loop_shape (gjs : nat -> option StatusData) (ir : nat -> bool) (fuel : nat) :
  forall pc c, max_polls - pc < fuel ->
  let '(tr, o) := poll_loop gjs ir fuel pc c in
  (exists pre, tr = pre ++ [StopContainer] /\ count_effect is_stop pre = 0) /\
  count_effect is_query tr <= max_polls - pc /\
  queries_after_sleep tr = true.
Proof.
  induction fuel as [|fuel IH]; intros pc c Hf; cbn [poll_loop]; [lia|].
  destruct (Nat.ltb_spec pc max_polls) as [Hlt|Hge].
  2:{ split; [exists []; split; reflexivity|]. unfold count_effect; simpl; split; [lia|reflexivity]. }
  assert (Hstep : forall pre k, count_effect is_stop pre = 0 ->
            count_effect is_query pre = 1 -> 1 <= k ->
            (forall tr, queries_after_sleep (pre ++ tr) = queries_after_sleep tr) ->
            let '(tr, o) := poll_loop gjs ir fuel (pc + k) (S c) in
            (exists pre', (pre ++ tr) = pre' ++ [StopContainer] /\ count_effect is_stop pre' = 0) /\
            count_effect is_query (pre ++ tr) <= max_polls - pc /\
            queries_after_sleep (pre ++ tr) = true).
  { intros pre k Hs Hq Hk Hqs.
    specialize (IH (pc + k) (S c) ltac:(lia)).
    destruct (poll_loop gjs ir fuel (pc + k) (S c)) as [tr o].
    destruct IH as ((pre' & -> & Hs') & Hq' & Hqs').
    split; [exists (pre ++ pre'); split; [rewrite app_assoc; reflexivity|]|].
    { rewrite count_effect_app, Hs, Hs'. reflexivity. }
    rewrite count_effect_app, Hq, Hqs. split; [lia|exact Hqs']. }
  destruct (gjs c) as [sd|].
  - destruct (status_is sd "completed").
    + destruct (sd_matches sd) as [|m ms].
      { split; [exists [Sleep; QueryStatus]; split; reflexivity|]. unfold count_effect; simpl; split; [lia|reflexivity]. }
      destruct (ir c).
      * replace (pc + 1 + 1) with (pc + 2) by lia.
        pose proof (Hstep [Sleep; QueryStatus; Ingest (m :: ms)] 2 eq_refl eq_refl ltac:(lia) (fun tr => eq_refl)) as Hk.
        revert Hk. destruct (poll_loop gjs ir fuel (pc + 2) (S c)). intros H; exact H.
      * split; [exists [Sleep; QueryStatus; Ingest (m :: ms)]; split; reflexivity|].
        unfold count_effect; simpl; split; [lia|reflexivity].
    + destruct (status_is sd "failed" || status_is sd "error").
      { split; [exists [Sleep; QueryStatus]; split; reflexivity|]. unfold count_effect; simpl; split; [lia|reflexivity]. }
      destruct (status_is sd "pending" || status_is sd "running").
      * pose proof (Hstep [Sleep; QueryStatus] 1 eq_refl eq_refl ltac:(lia) (fun tr => eq_refl)) as Hk.
        revert Hk. destruct (poll_loop gjs ir fuel (pc + 1) (S c)). intros H; exact H.
      * pose proof (Hstep [Sleep; QueryStatus; LogUnknownStatus] 1 eq_refl eq_refl ltac:(lia) (fun tr => eq_refl)) as Hk.
        revert Hk. destruct (poll_loop gjs ir fuel (pc + 1) (S c)). intros H; exact H.
  - replace (pc + 1 + 1) with (pc + 2) by lia.
    pose proof (Hstep [Sleep; QueryStatus] 2 eq_refl eq_refl ltac:(lia) (fun tr => eq_refl)) as Hk.
    revert Hk. destruct (poll_loop gjs ir fuel (pc + 2) (S c)). intros H; exact H.
Qed.

(** X9: whatever the status answers and whether queries or ingestion raise,
    every polling run ends normally (never for want of fuel) with exactly
    one attempted release of the container, as its last effect; it makes
    at most 40 status queries, each right after a sleep. *)
Theorem poll_run_shape (gjs : nat -> option StatusData) (ir : nat -> bool) :
  let '(tr, o) := poll_scraper_and_process gjs ir in
  o <> PollOutOfFuel /\
  (exists pre, tr = pre ++ [StopContainer] /\ count_effect is_stop pre = 0) /\
  count_effect is_query tr <= max_polls /\
  queries_after_sleep tr = true.
Proof.
  unfold poll_scraper_and_process.
  pose proof (poll_loop_never_out_of_fuel gjs ir (S max_polls) 0 0
                ltac:(unfold max_polls; lia)) as Hnf.
  pose proof (poll_loop_shape gjs ir (S max_polls) 0 0 ltac:(unfold max_polls; lia)) as Hs.
  destruct (poll_loop gjs ir (S max_polls) 0 0) as [tr o].
  rewrite Nat.sub_0_r in Hs. split; [exact Hnf|exact Hs].
Qed.

(** Witnesses. *)

Definition sample_listing : ProductListing :=
  create_from_scraper_match 1 0 230 "https://fb.com/1" "Sony A6400" 400 7 "Sony" "a6400" 95 100.

Definition full_path : list (ListingState * string * Z) :=
  [(MESSAGING, "chatterbot", 1%Z); (NEGOTIATING, "chatterbot", 2%Z);
   (PURCHASED, "admin_api", 3%Z); (RECEIVED, "admin_api", 4%Z);
   (LISTED, "ebay", 5%Z); (SOLD, "ebay", 6%Z)]%string.

Lemma run_transitions_bounded_witness :
  run_transitions full_path sample_listing =
    (Ok tt, snd (run_transitions full_path sample_listing)) /\
  length full_path <= 6 /\
  NoDup (state sample_listing :: map (fun '(s, _, _) => s) full_path).
Proof.
  assert (Hrun : run_transitions full_path sample_listing =
                   (Ok tt, snd (run_transitions full_path sample_listing))) by reflexivity.
  split; [exact Hrun|].
  exact (run_transitions_bounded full_path sample_listing _ Hrun).
Defined.


(** The sample listing, messaged and then cancelled. *)
Definition w_messaged : ProductListing :=
  snd (transition_to MESSAGING "chatterbot"%string 1 sample_listing).

Definition w_cancelled : ProductListing :=
  snd (transition_to CANCELLED "admin_api"%string 2 w_messaged).

Lemma w_cancelled_reachable : reachable w_cancelled.
Proof.
  apply (reach_transition w_messaged CANCELLED "admin_api"%string 2
           (fst (transition_to CANCELLED "admin_api"%string 2 w_messaged))).
  - apply (reach_transition sample_listing MESSAGING "chatterbot"%string 1
             (fst (transition_to MESSAGING "chatterbot"%string 1 sample_listing))).
    + apply reach_create.
    + reflexivity.
  - reflexivity.
Qed.

Lemma reachable_events_carry_id_witness :
  reachable w_cancelled /\
  Forall (fun e => event_listing_id e = Some (id w_cancelled)) (_events w_cancelled).
Proof.
  split; [exact w_cancelled_reachable|].
  exact (reachable_events_carry_id w_cancelled w_cancelled_reachable).
Defined.

Lemma reachable_events_replay_witness :
  reachable w_cancelled /\
  replay FOUND (state_changes (_events w_cancelled)) = Some CANCELLED.
Proof.
  split; [exact w_cancelled_reachable|].
  destruct (reachable_events_replay w_cancelled w_cancelled_reachable) as [_ Hr].
  exact (Hr eq_refl).
Defined.

Lemma reachable_lifecycle_timestamps_witness :
  reachable w_cancelled /\ get_ts cancelled_at_attr w_cancelled <> None.
Proof.
  split; [exact w_cancelled_reachable|].
  destruct (reachable_lifecycle_timestamps w_cancelled w_cancelled_reachable) as [[_ Hc] _].
  exact (Hc eq_refl).
Defined.

(* ------------------------------------------------------------------ *)
(** ** The SQLAlchemy listing repository *)

Lemma creation_fields_set_events evs l : creation_fields (set_events evs l) = creation_fields l.
Proof. destruct l; reflexivity. Qed.

Lemma creation_fields_set_ts a v l : creation_fields (set_ts a v l) = creation_fields l.
Proof. destruct l, a; reflexivity. Qed.

Lemma creation_fields_set_state_fields st now l :
  creation_fields (set_state_fields st now l) = creation_fields l.
Proof. destruct l; reflexivity. Qed.

Lemma creation_fields_set_error msg now l :
  creation_fields (set_error msg now l) = creation_fields l.
Proof. destruct l; reflexivity. Qed.

Lemma creation_fields_transition_to s tb now l r l' :
  transition_to s tb now l = (r, l') -> creation_fields l' = creation_fields l /\ id l' = id l.
Proof.
  intros Ht. rewrite transition_to_eq in Ht.
  destruct (can_transition (state l) s); injection Ht as _ <-; [|auto].
  destruct (lifecycle_attr s); split;
    rewrite ?creation_fields_set_events, ?creation_fields_set_ts, ?creation_fields_set_state_fields,
      ?id_set_events, ?id_set_ts, ?id_set_state_fields; reflexivity.
Qed.

Lemma evolves_creation_fields l0 l :
  evolves l0 l -> creation_fields l = creation_fields l0 /\ id l = id l0.
Proof.
  induction 1 as [|l s tb now r l' _ IH Ht|l msg now _ IH|l _ IH]; [auto| | |].
  - apply creation_fields_transition_to in Ht as [-> ->]. exact IH.
  - rewrite record_error_snd, creation_fields_set_error, id_set_error. exact IH.
  - rewrite collect_events_snd, creation_fields_set_events, id_set_events. exact IH.
Qed.

Section SqlProofs.

Variable Float : Type.
Variable float_of_decimal : Z -> Float.
Variable decimal_of_float : Float -> Z.
Variable listing_flush_fails : ProductListingModel Float -> bool.
Variable history_flush_fails : StateHistoryRecord -> bool.
Variable commit_fails : bool.
Variable send_fails : DomainEvent -> bool.
Variable Match : Type.
Variable match_fields : Match -> option MatchFields.
Variable parse_uuid : string -> option nat.

Local Abbreviation lsave := (sql_listing_save float_of_decimal listing_flush_fails).
Local Abbreviation lget := (sql_get_by_id decimal_of_float).
Local Abbreviation to_domain := (_to_domain decimal_of_float).
Local Abbreviation to_model := (_to_model float_of_decimal).

Lemma lsave_eq (l : ProductListing) (s : Session Float) :
  lsave l s =
  if tx_failed s then (Err PortError, s)
  else
    let row := match db_listings (tx s) !! id l with
               | None => to_model l
               | Some m => update_model m l
               end in
    if listing_flush_fails row then (Err PortError, set_tx_failed s)
    else (Ok tt, set_tx (mkDb (<[pm_id row := row]> (db_listings (tx s)))
                                 (db_history (tx s))) s).
Proof.
  unfold sql_listing_save, flush_listing, mbind, ST_bind, st_bind, st_get, st_put, st_raise.
  destruct (tx_failed s) eqn:Hf; [reflexivity|].
  destruct (db_listings (tx s) !! id l); cbv zeta; rewrite Hf; destruct (listing_flush_fails _); reflexivity.
Qed.

Lemma lget_eq (lid : nat) (s : Session Float) :
  lget lid s =
  if tx_failed s then (Err PortError, s)
  else (Ok (to_domain <$> db_listings (tx s) !! lid), s).
Proof.
  unfold sql_get_by_id, mbind, ST_bind, st_bind, st_get.
  destruct (tx_failed s); reflexivity.
Qed.

Lemma to_domain_update_model (m : ProductListingModel Float) (l : ProductListing) :
  pm_id m = id l ->
  creation_fields l = creation_fields (to_domain m) ->
  to_domain (update_model m l) = set_events [] l.
Proof.
  destruct m, l; cbn. intros -> Hc. injection Hc as -> -> -> -> -> -> -> -> -> -> ->.
  reflexivity.
Qed.




Lemma bus_publish_many_eq (evs : list DomainEvent) (s : Session Float) :
  bus_publish_many send_fails evs s =
  (Ok tt, set_bus (bus s ++ filter (fun e => send_fails e = false) evs) s).
Proof.
  revert s; induction evs as [|e evs IH]; intros s.
  - destruct s; cbn. rewrite app_nil_r. reflexivity.
  - cbn [bus_publish_many]. unfold mbind, ST_bind, st_bind, bus_publish, st_try, st_raise, st_modify, st_ret.
    destruct (send_fails e) eqn:He; cbv beta iota.
    + rewrite IH, filter_cons, He. reflexivity.
    + rewrite IH, filter_cons, He. cbn. destruct s; cbn. rewrite <- app_assoc. reflexivity.
Qed.


Local Abbreviation hsave := (sql_history_save history_flush_fails).
Local Abbreviation pom := (process_one_match float_of_decimal listing_flush_fails
                             history_flush_fails send_fails match_fields parse_uuid).


Lemma pom_eq jid brand m s :
  pom jid brand m s =
  match match_fields m, parse_uuid jid with
  | Some f, Some job =>
      let lst := scraper_listing (uuid_next s) (db_now s) f job in
      match lsave lst (bump_session_uuid s) with
      | (Ok _, s2) =>
          match hsave (uuid_next s) None FOUND "scraper_polling"%string
                  [("job_id"%string, MStr jid); ("brand"%string, MStr brand)] s2 with
          | (Ok _, s3) =>
              (Ok (uuid_next s), set_bus (bus s3 ++ filter (fun e => send_fails e = false) (_events lst)) s3)
          | (Err e, s3) => (Err e, s3)
          end
      | (Err e, s2) => (Err e, s2)
      end
  | _, _ => (Err PortError, s)
  end.
Proof.
  unfold process_one_match.
  destruct (match_fields m) as [f|]; [|reflexivity].
  destruct (parse_uuid jid) as [job|]; [|reflexivity].
  cbv [mbind ST_bind st_bind session_uuid4 session_utcnow st_get st_put st_ret].
  destruct (lsave _ _) as [[u|e] s2]; [|reflexivity].
  destruct (hsave _ _ _ _ _ _) as [[u'|e'] s3]; [|reflexivity].
  cbv [on_aggregate collect_events mbind ST_bind st_bind st_get st_modify st_ret].
  rewrite bus_publish_many_eq. reflexivity.
Qed.


Lemma hsave_eq lid fs ts tb md (s : Session Float) :
  hsave lid fs ts tb md s =
  if tx_failed s then (Err PortError, s)
  else
    let record := mkHistory lid fs ts (db_now s) tb md in
    if history_flush_fails record || negb (bool_decide (is_Some (db_listings (tx s) !! lid)))
    then (Err PortError, set_tx_failed s)
    else (Ok tt, set_tx (mkDb (db_listings (tx s)) (db_history (tx s) ++ [record])) s).
Proof.
  unfold sql_history_save, mbind, ST_bind, st_bind, st_get, st_put, st_raise. cbv zeta.
  destruct (tx_failed s); [reflexivity|].
  destruct (_ || _); reflexivity.
Qed.

Ltac split_ifs :=
  repeat (match goal with
          | |- context [if ?b then _ else _] => destruct b
          | |- context [db_listings ?d !! ?k] => destruct (db_listings d !! k)
          end; cbn).

Lemma pom_frame jid brand m s r s' :
  pom jid brand m s = (r, s') ->
  committed s' = committed s /\ db_now s' = db_now s /\
  (tx_failed s = true -> tx_failed s' = true /\ r = Err PortError /\ tx s' = tx s /\ bus s' = bus s).
Proof.
  rewrite pom_eq.
  destruct (match_fields m) as [f|]; [|intros [= <- <-]; intuition].
  destruct (parse_uuid jid) as [job|]; [|intros [= <- <-]; intuition].
  cbv zeta. rewrite lsave_eq. destruct s as [c t fl b u n]; cbn.
  destruct fl; [intros [= <- <-]; cbn; intuition|].
  split_ifs; try rewrite hsave_eq; cbn; split_ifs.
  all: intros [= <- <-]; cbn; intuition congruence.
Qed.

Lemma pom_ok jid brand m s r s' :
  pom jid brand m s = (r, s') -> tx_failed s' = false ->
  db_listings (tx s) !! uuid_next s = None ->
  (r = Err PortError /\ s' = s /\ (match_fields m = None \/ parse_uuid jid = None)) \/
  (exists f job, match_fields m = Some f /\ parse_uuid jid = Some job /\    r = Ok (uuid_next s) /\ tx_failed s = false /\ uuid_next s' = S (uuid_next s) /\    committed s' = committed s /\ db_now s' = db_now s /\    tx s' = mkDb (<[uuid_next s := _to_model float_of_decimal
                                     (scraper_listing (uuid_next s) (db_now s) f job)]>
                     (db_listings (tx s)))
                  (db_history (tx s) ++ [mkHistory (uuid_next s) None FOUND (db_now s)
                     "scraper_polling"%string [("job_id"%string, MStr jid); ("brand"%string, MStr brand)]])).
Proof.
  rewrite pom_eq.
  destruct (match_fields m) as [f|] eqn:Hf; [|intros [= <- <-]; auto].
  destruct (parse_uuid jid) as [job|] eqn:Hj; [|intros [= <- <-]; auto].
  cbv zeta. rewrite lsave_eq. destruct s as [c t fl b u n]; cbn. intros Hrun Hok Hfresh.
  destruct fl; [injection Hrun as <- <-; discriminate|].
  rewrite Hfresh in Hrun. cbv zeta in Hrun.
  destruct (listing_flush_fails _); [injection Hrun as <- <-; discriminate|].
  rewrite hsave_eq in Hrun; cbn in Hrun.
  rewrite lookup_insert_eq in Hrun. cbn in Hrun.
  destruct (history_flush_fails _); cbn in Hrun; [injection Hrun as <- <-; discriminate|].
  injection Hrun as <- <-. right. exists f, job. cbn. repeat split; reflexivity.
Qed.

Local Abbreviation loop := (process_matches_loop float_of_decimal listing_flush_fails
                             history_flush_fails send_fails match_fields parse_uuid).

Lemma loop_cons jid brand m ms acc s :
  loop jid brand (m :: ms) acc s =
  match pom jid brand m s with
  | (Ok lid, s1) => loop jid brand ms (acc ++ [lid]) s1
  | (Err _, s1) => loop jid brand ms acc s1
  end.
Proof.
  cbn [process_matches_loop]. cbv [mbind ST_bind st_bind st_try st_ret].
  destruct (pom jid brand m s) as [[lid|e] s1]; reflexivity.
Qed.

Lemma loop_frame jid brand ms acc s r s' :
  loop jid brand ms acc s = (r, s') ->
  (exists new, r = Ok (acc ++ new)) /\ committed s' = committed s /\ db_now s' = db_now s /\
  (tx_failed s = true -> tx_failed s' = true /\ r = Ok acc /\ tx s' = tx s /\ bus s' = bus s).
Proof.
  revert acc s; induction ms as [|m ms IH]; intros acc s.
  - cbn. intros [= <- <-]. split; [exists []; rewrite app_nil_r; reflexivity|]. intuition.
  - rewrite loop_cons. destruct (pom jid brand m s) as [[lid|e] s1] eqn:Hp;
      apply pom_frame in Hp as (Hc1 & Hn1 & Hf1); intros Hl;
      apply IH in Hl as ([new ->] & Hc2 & Hn2 & Hf2).
    + split; [exists ([lid] ++ new); rewrite app_assoc; reflexivity|].
      split; [congruence|]. split; [congruence|].
      intros Hf. destruct (Hf1 Hf) as (_ & [=] & _).
    + split; [exists new; reflexivity|]. split; [congruence|]. split; [congruence|].
      intros Hf. destruct (Hf1 Hf) as (Hf1' & _ & Ht1 & Hb1).
      destruct (Hf2 Hf1') as (? & ? & ? & ?). intuition congruence.
Qed.

Lemma loop_ok jid brand ms acc s r s' :
  loop jid brand ms acc s = (r, s') -> tx_failed s' = false ->
  (forall k, uuid_next s <= k -> db_listings (tx s) !! k = None) ->
  exists new, r = Ok (acc ++ new) /\ tx_failed s = false /\
    committed s' = committed s /\ db_now s' = db_now s /\ uuid_next s <= uuid_next s' /\
    length new = match parse_uuid jid with Some _ => length (omap match_fields ms) | None => 0 end /\
    Forall (fun k => uuid_next s <= k < uuid_next s') new /\ NoDup new /\
    (forall k, uuid_next s' <= k -> db_listings (tx s') !! k = None) /\
    db_history (tx s') = db_history (tx s) ++
      map (fun k => mkHistory k None FOUND (db_now s) "scraper_polling"%string
                      [("job_id"%string, MStr jid); ("brand"%string, MStr brand)]) new /\
    (forall k, k ∈ new -> exists mdl, db_listings (tx s') !! k = Some mdl /\
        pm_state mdl = FOUND /\ parse_uuid jid = Some (pm_scraper_job_id mdl)) /\
    (forall k, k ∉ new -> db_listings (tx s') !! k = db_listings (tx s) !! k).
Proof.
  revert acc s; induction ms as [|m ms IH]; intros acc s.
  - cbn. intros [= <- <-] Hok Hfresh. exists []. rewrite app_nil_r.
    repeat split; auto.
    + destruct (parse_uuid jid); reflexivity.
    + constructor.
    + rewrite app_nil_r. reflexivity.
    + intros k Hk. inversion Hk.
  - rewrite loop_cons. intros Hl Hok Hfresh.
    destruct (pom jid brand m s) as [r1 s1] eqn:Hp.
    assert (Hok1 : tx_failed s1 = false).
    { destruct (tx_failed s1) eqn:E; [|reflexivity].
      destruct r1; apply loop_frame in Hl as (_ & _ & _ & Hf); destruct (Hf E); congruence. }
    destruct (pom_ok _ _ _ _ _ _ Hp Hok1 (Hfresh _ (le_n _))) as
      [(-> & -> & Hnone)|(f & job & Hf & Hj & -> & Hok0 & Hu1 & Hc1 & Hn1 & Ht1)].
    + destruct (IH _ _ Hl Hok Hfresh) as
        (new & -> & H1 & H2 & H3 & H4 & Hlen & H6 & H7 & H8 & H9 & H10 & H11).
      exists new. split; [reflexivity|]. repeat split; try assumption.
      rewrite Hlen. destruct Hnone as [Hm|Hm]; rewrite ?Hm.
      * destruct (parse_uuid jid); [|reflexivity]. cbn. rewrite Hm. reflexivity.
      * reflexivity.
    + assert (Hfresh1 : forall k, uuid_next s1 <= k -> db_listings (tx s1) !! k = None).
      { intros k Hk. rewrite Ht1. cbn. rewrite lookup_insert_ne by lia. apply Hfresh. lia. }
      destruct (IH _ _ Hl Hok Hfresh1) as
        (new & -> & _ & Hc2 & Hn2 & Hu2 & Hlen & Hrange & Hnd & Hfresh2 & Hh2 & Hrows & Hother).
      exists (uuid_next s :: new).
      split; [rewrite <- app_assoc; reflexivity|].
      split; [exact Hok0|]. split; [congruence|]. split; [congruence|]. split; [lia|].
      split. { cbn. rewrite Hlen, Hj. cbn. rewrite Hf. reflexivity. }
      assert (Hnotin : uuid_next s ∉ new).
      { intros Hin. rewrite Forall_forall in Hrange. specialize (Hrange _ Hin). lia. }
      split. { constructor; [lia|]. eapply Forall_impl; [exact Hrange|]. cbn. lia. }
      split. { constructor; assumption. }
      split. { exact Hfresh2. }
      split. { rewrite Hh2, Ht1, Hn1. cbn. rewrite <- app_assoc. reflexivity. }
      split.
      { intros k Hk. apply elem_of_cons in Hk as [->|Hk]; [|exact (Hrows k Hk)].
        rewrite (Hother _ Hnotin), Ht1. cbn. rewrite lookup_insert_eq.
        eexists. split; [reflexivity|]. split; [reflexivity|]. rewrite Hj. reflexivity. }
      intros k Hk. rewrite not_elem_of_cons in Hk. destruct Hk as [Hk1 Hk2].
      rewrite (Hother _ Hk2), Ht1. cbn. apply lookup_insert_ne. congruence.
Qed.

Local Abbreviation psm := (process_scraper_matches float_of_decimal listing_flush_fails
                            history_flush_fails commit_fails send_fails match_fields parse_uuid).

Lemma commit_eq (s : Session Float) :
  session_commit commit_fails s =
  if tx_failed s then (Err PortError, s)
  else if commit_fails then (Err PortError, s) else (Ok tt, set_committed (tx s) s).
Proof.
  unfold session_commit, mbind, ST_bind, st_bind, st_get, st_put, st_raise.
  destruct (tx_failed s); [reflexivity|]. destruct commit_fails; reflexivity.
Qed.

Lemma psm_eq jid brand ms s :
  psm jid brand ms s =
  match loop jid brand ms [] (begin_session s) with
  | (Ok ids, s1) =>
      match session_commit commit_fails s1 with
      | (Ok _, s2) => (Ok ids, s2)
      | (Err e, s2) => (Err e, s2)
      end
  | (Err e, s1) => (Err e, s1)
  end.
Proof.
  unfold process_scraper_matches. cbv [mbind ST_bind st_bind st_modify st_ret].
  destruct (loop jid brand ms [] (begin_session s)) as [[ids|e] s1]; [|reflexivity].
  destruct (session_commit commit_fails s1) as [[[]|e] s2]; reflexivity.
Qed.

(** X13: when [process_scraper_matches] returns, its commit succeeded: every
    readable match got a fresh listing in FOUND and one scraper_polling
    history row, and no other listing row changed. *)
Theorem process_scraper_matches_commits_created jid brand ms s ids s'
    (Hfresh : forall k, uuid_next s <= k -> db_listings (committed s) !! k = None)
    (Hrun : process_scraper_matches float_of_decimal listing_flush_fails history_flush_fails
               commit_fails send_fails match_fields parse_uuid jid brand ms s = (Ok ids, s')) :
  commit_fails = false /\ NoDup ids /\
  length ids = match parse_uuid jid with Some _ => length (omap match_fields ms) | None => 0 end /\
  db_history (committed s') = db_history (committed s) ++
    map (fun k => mkHistory k None FOUND (db_now s) "scraper_polling"%string
                    [("job_id"%string, MStr jid); ("brand"%string, MStr brand)]) ids /\
  (forall k, k ∈ ids -> exists mdl, db_listings (committed s') !! k = Some mdl /\
      pm_state mdl = FOUND /\ parse_uuid jid = Some (pm_scraper_job_id mdl)) /\
  (forall k, k ∉ ids -> db_listings (committed s') !! k = db_listings (committed s) !! k).
Proof.
  rewrite psm_eq in Hrun.
  destruct (loop jid brand ms [] (begin_session s)) as [[ids1|e] s1] eqn:Hl; [|discriminate].
  rewrite commit_eq in Hrun.
  destruct (tx_failed s1) eqn:Hf1; [discriminate|].
  destruct commit_fails; [discriminate|].
  injection Hrun as <- <-.
  destruct (loop_ok _ _ _ _ _ _ _ Hl Hf1 Hfresh) as
    (new & Hnew & _ & _ & Hn & _ & Hlen & _ & Hnd & _ & Hh & Hrows & Hother).
  injection Hnew as ->. cbn in Hn |- *.
  split; [reflexivity|]. split; [exact Hnd|]. split; [exact Hlen|].
  split; [rewrite Hh; destruct s; reflexivity|]. split; [exact Hrows|exact Hother].
Qed.

(** X14: [process_scraper_matches] either raises with the committed database
    unchanged or commits its whole session. *)
Theorem process_scraper_matches_all_or_nothing jid brand ms s :
  let '(r, s') := process_scraper_matches float_of_decimal listing_flush_fails history_flush_fails
                    commit_fails send_fails match_fields parse_uuid jid brand ms s in
  (r = Err PortError /\ committed s' = committed s) \/
  (exists ids, r = Ok ids /\ commit_fails = false /\ tx_failed s' = false /\ committed s' = tx s').
Proof.
  rewrite psm_eq.
  destruct (loop jid brand ms [] (begin_session s)) as [r1 s1] eqn:Hl.
  apply loop_frame in Hl as ([new ->] & Hc & _ & _).
  rewrite commit_eq.
  destruct (tx_failed s1) eqn:Hf1; [left; split; [reflexivity|]; rewrite Hc; destruct s; reflexivity|].
  destruct commit_fails; [left; split; [reflexivity|]; rewrite Hc; destruct s; reflexivity|].
  right. eexists. split; [reflexivity|]. split; [reflexivity|].
  destruct s1; cbn in *. split; [exact Hf1|reflexivity].
Qed.

(** X15: once a flush has failed, every later match of the loop is skipped
    without any write or publication. *)
Theorem process_matches_loop_after_failed_flush jid brand ms acc s
    (Hfailed : tx_failed s = true) :
  let '(r, s') := process_matches_loop float_of_decimal listing_flush_fails history_flush_fails
                    send_fails match_fields parse_uuid jid brand ms acc s in
  r = Ok acc /\ tx_failed s' = true /\ tx s' = tx s /\ bus s' = bus s /\ committed s' = committed s.
Proof.
  destruct (loop jid brand ms acc s) as [r s'] eqn:Hl.
  apply loop_frame in Hl as (_ & Hc & _ & Hf).
  destruct (Hf Hfailed) as (? & ? & ? & ?). auto.
Qed.

Local Abbreviation wone := (webhook_one float_of_decimal listing_flush_fails history_flush_fails send_fails).
Local Abbreviation wloop := (webhook_loop float_of_decimal listing_flush_fails history_flush_fails send_fails).
Local Abbreviation sjc := (scraper_job_complete float_of_decimal listing_flush_fails history_flush_fails send_fails).

Lemma webhook_one_eq job brand m s :
  wone job brand m s =
  let lst := create_from_scraper_match (uuid_next s) (db_now s) (m_product_id m) (url m)
               (m_title m) (price m) job (m_brand m) (m_model m) (confidence m)
               (potential_profit m) in
  match lsave lst (bump_session_uuid s) with
  | (Ok _, s2) =>
      match hsave (uuid_next s) None FOUND "scraper_webhook"%string
              [("job_id"%string, MUuid job); ("brand"%string, MStr brand)] s2 with
      | (Ok _, s3) =>
          (Ok (uuid_next s), set_bus (bus s3 ++ filter (fun e => send_fails e = false) (_events lst)) s3)
      | (Err e, s3) => (Err e, s3)
      end
  | (Err e, s2) => (Err e, s2)
  end.
Proof.
  unfold webhook_one.
  cbv [mbind ST_bind st_bind session_uuid4 session_utcnow st_get st_put st_ret].
  destruct (lsave _ _) as [[u|e] s2]; [|reflexivity].
  destruct (hsave _ _ _ _ _ _) as [[u'|e'] s3]; [|reflexivity].
  cbv [on_aggregate collect_events mbind ST_bind st_bind st_get st_modify st_ret].
  rewrite bus_publish_many_eq. reflexivity.
Qed.

Lemma webhook_one_frame job brand m s r s' :
  wone job brand m s = (r, s') ->
  committed s' = committed s /\
  ((exists e, r = Err e) <-> tx_failed s' = true) /\
  (tx_failed s = true -> tx_failed s' = true /\ tx s' = tx s /\ bus s' = bus s).
Proof.
  rewrite webhook_one_eq. cbv zeta. rewrite lsave_eq. destruct s as [c t fl b u n]; cbn.
  destruct fl; [intros [= <- <-]; cbn; split; [reflexivity|]; split; [split; [reflexivity|eauto]|auto]|].
  split_ifs; try rewrite hsave_eq; cbn; split_ifs.
  all: intros [= <- <-]; cbn; split; [reflexivity|]; split; [|intros; discriminate].
  all: split; [intros [e' He']; try discriminate; reflexivity|intros He'; try discriminate; eauto].
Qed.

Lemma webhook_loop_counts job brand ms acc sk s r s' :
  wloop job brand ms acc sk s = (r, s') ->
  exists created k, r = Ok (acc ++ created, sk + k) /\ length created + k = length ms /\
    (tx_failed s' = true <-> tx_failed s = true \/ 0 < k) /\
    (tx_failed s = true -> created = [] /\ tx s' = tx s /\ bus s' = bus s) /\
    committed s' = committed s.
Proof.
  revert acc sk s; induction ms as [|m ms IH]; intros acc sk s.
  - cbn. intros [= <- <-]. exists [], 0. rewrite app_nil_r, Nat.add_0_r.
    split; [reflexivity|]. split; [reflexivity|]. split; [|auto]. split; [auto|]. intros [H|H]; [exact H|lia].
  - cbn [webhook_loop]. cbv [mbind ST_bind st_bind st_try st_ret].
    destruct (wone job brand m s) as [[lid|e] s1] eqn:Hw;
      apply webhook_one_frame in Hw as (Hc1 & Hr1 & Hf1); intros Hl;
      apply IH in Hl as (created & k & -> & Hlen & Hiff & Hf2 & Hc2).
    + exists (lid :: created), k. rewrite <- app_assoc. split; [reflexivity|].
      split; [cbn; lia|]. split.
      * rewrite Hiff. split; [intros [H|H]; [|right; exact H]|intros [H|H]].
        -- destruct (tx_failed s) eqn:E; [left; reflexivity|]. exfalso.
           assert (Hx : exists e, @Ok nat lid = Err e) by (apply Hr1; exact H). destruct Hx; discriminate.
        -- left. apply Hf1. exact H.
        -- right. exact H.
      * split; [|congruence]. intros Hf. destruct (Hf1 Hf) as (Hf' & _).
        assert (Hx : exists e, @Ok nat lid = Err e) by (apply Hr1; exact Hf'). destruct Hx; discriminate.
    + assert (Hf1' : tx_failed s1 = true) by (apply Hr1; eauto).
      exists created, (S k). rewrite Nat.add_succ_r. split; [reflexivity|].
      split; [cbn; lia|]. split.
      * split; [intros _; right; lia|intros _; apply Hiff; left; exact Hf1'].
      * split; [|congruence]. intros Hf. destruct (Hf1 Hf) as (_ & Ht & Hb).
        destruct (Hf2 Hf1') as (-> & Ht2 & Hb2). split; [reflexivity|]. split; congruence.
Qed.

(** X16: the body of [scraper_job_complete] never raises; created plus skipped
    is the number of matches, and a match is skipped exactly when the
    session breaks. *)
Theorem scraper_job_complete_counts job brand ms s :
  let '(r, s') := scraper_job_complete float_of_decimal listing_flush_fails history_flush_fails
                    send_fails job brand ms s in
  exists res, r = Ok res /\
    wa_created_listings res + wa_skipped res = length ms /\
    (tx_failed s' = true <-> tx_failed s = true \/ 0 < wa_skipped res) /\
    (tx_failed s = true -> wa_created_listings res = 0 /\ tx s' = tx s /\ bus s' = bus s) /\
    committed s' = committed s.
Proof.
  unfold scraper_job_complete. cbv [mbind ST_bind st_bind st_ret].
  destruct (wloop job brand ms [] 0 s) as [r1 s1] eqn:Hl.
  apply webhook_loop_counts in Hl as (created & k & -> & Hlen & Hiff & Hf & Hc).
  eexists. split; [reflexivity|]. cbn. split; [exact Hlen|]. split; [exact Hiff|]. split; [|exact Hc].
  intros H. destruct (Hf H) as (-> & ? & ?). auto.
Qed.

Local Abbreviation admin := (admin_transition_listing float_of_decimal decimal_of_float
                              listing_flush_fails history_flush_fails send_fails).


Lemma admin_eq lid to reason s :
  admin lid to reason s =
  if tx_failed s then (Err PortError, s)
  else match db_listings (tx s) !! lid with
  | None => (Ok AdminNotFound, s)
  | Some m =>
      match transition_to to "admin_api" (db_now s) (to_domain m) with
      | (Err e, _) => (Ok (AdminUnprocessable e), s)
      | (Ok _, l1) =>
          match lsave l1 s with
          | (Err e, s2) => (Err e, s2)
          | (Ok _, s2) =>
              match hsave (id l1) (Some (pm_state m)) to "admin_api" (reason_metadata reason) s2 with
              | (Err e, s3) => (Err e, s3)
              | (Ok _, s3) =>
                  (Ok (AdminOk (set_events [] l1)),
                   set_bus (bus s3 ++ filter (fun e => send_fails e = false) (_events l1)) s3)
              end
          end
      end
  end.
Proof.
  unfold admin_transition_listing.
  cbv [mbind ST_bind st_bind st_ret session_utcnow st_get].
  rewrite lget_eq. destruct (tx_failed s); [reflexivity|].
  destruct (db_listings (tx s) !! lid) as [m|]; [|reflexivity]. cbn [fmap option_fmap option_map].
  replace (state (to_domain m)) with (pm_state m) by (destruct m; reflexivity).
  destruct (transition_to to "admin_api" (db_now s) (to_domain m)) as [[u|e] l1]; [|reflexivity].
  destruct (lsave l1 s) as [[u'|e'] s2]; [|reflexivity].
  destruct (hsave _ _ _ _ _ s2) as [[u''|e''] s3]; [|reflexivity].
  cbv [on_aggregate collect_events mbind ST_bind st_bind st_get st_modify st_ret].
  rewrite bus_publish_many_eq. reflexivity.
Qed.

(** X17: [transition_listing] answers 404 exactly for a missing listing and 422
    exactly for a transition the state machine forbids, changing nothing. *)
Theorem admin_transition_listing_rejections lid to reason s :
  let '(r, s') := admin lid to reason s in
  (r = Ok AdminNotFound <-> tx_failed s = false /\ db_listings (tx s) !! lid = None) /\
  (forall e, r = Ok (AdminUnprocessable e) <->
     tx_failed s = false /\ exists m, db_listings (tx s) !! lid = Some m /\
       can_transition (pm_state m) to = false /\ e = InvalidStateTransitionError (pm_state m) to) /\
  match r with
  | Ok AdminNotFound | Ok (AdminUnprocessable _) => s' = s
  | _ => True
  end.
Proof.
  rewrite admin_eq. destruct (tx_failed s) eqn:Hf.
  { split; [split; [discriminate|intros [? _]; discriminate]|].
    split; [|exact I]. intros e; split; [discriminate|intros [? _]; discriminate]. }
  destruct (db_listings (tx s) !! lid) as [m|] eqn:Hm.
  2: { split; [tauto|]. split; [|reflexivity]. intros e. split; [discriminate|].
       intros [_ (m & Hm' & _)]. discriminate. }
  rewrite transition_to_eq.
  replace (state (to_domain m)) with (pm_state m) by (destruct m; reflexivity).
  destruct (can_transition (pm_state m) to) eqn:Hc.
  - cbv zeta.
    destruct (lsave _ s) as [[u'|e'] s2]; [destruct (hsave _ _ _ _ _ s2) as [[u''|e''] s3]|].
    all: split; [split; [discriminate|intros [_ ?]; discriminate]|].
    all: split; [intros e; split; [discriminate|intros [_ (m' & [= <-] & Hc' & _)]; congruence]|exact I].
  - split; [split; [discriminate|intros [_ ?]; discriminate]|].
    split; [|reflexivity]. intros e. split.
    + intros [= <-]. split; [reflexivity|]. exists m. auto.
    + intros [_ (m' & [= <-] & _ & ->)]. reflexivity.
Qed.



End SqlProofs.


(** Sample inputs for the session-level theorems: a database holding the
    row of [sample_listing], identity Decimal/float conversions, and a
    database that accepts every write. *)
Definition w_row : ProductListingModel Z := _to_model (fun z : Z => z) sample_listing.

Definition w_db : DbState Z := mkDb (<[1 := w_row]> ∅) [].

Definition w_session : Session Z := mkSession w_db w_db false [] 2 10.

Definition w_fields : MatchFields :=
  mkMatchFields 231 "https://fb.com/2"%string "Sony A7 III"%string 900 "Sony"%string "a7iii"%string 90 150.

Definition w_new_listing : ProductListing := scraper_listing 2 10 w_fields 7.

Definition w_psm :=
  process_scraper_matches (fun z : Z => z) (fun _ => false) (fun _ => false) false
    (fun _ => false) (fun f : MatchFields => Some f) (fun _ => Some 7)
    "job-7"%string "Sony"%string [w_fields] w_session.

Definition w_admin :=
  admin_transition_listing (fun z : Z => z) (fun z : Z => z) (fun _ => false) (fun _ => false)
    (fun _ => false) 1 MESSAGING (Some "seller replied"%string) w_session.

Definition w_admin_listing : ProductListing :=
  match fst w_admin with Ok (AdminOk l) => l | _ => sample_listing end.

Lemma w_session_fresh (k : nat) : uuid_next w_session <= k -> db_listings (committed w_session) !! k = None.
Proof. cbn. intros Hk. rewrite lookup_insert_ne by lia. apply lookup_empty. Qed.

Lemma w_session_keys (k : nat) (m : ProductListingModel Z) :
  db_listings (tx w_session) !! k = Some m -> pm_id m = k.
Proof.
  cbn. destruct (decide (k = 1)) as [->|Hk].
  - rewrite lookup_insert_eq. intros [= <-]. reflexivity.
  - rewrite lookup_insert_ne by congruence. rewrite lookup_empty. discriminate.
Qed.




Lemma process_scraper_matches_commits_created_witness :
  NoDup [2] /\
  db_history (committed (snd w_psm)) =
    [mkHistory 2 None FOUND 10 "scraper_polling"%string [("job_id"%string, MStr "job-7"%string); ("brand"%string, MStr "Sony"%string)]] /\
  (exists mdl, db_listings (committed (snd w_psm)) !! 2 = Some mdl /\
     pm_state mdl = FOUND /\ Some 7 = Some (pm_scraper_job_id mdl)).
Proof.
  destruct (process_scraper_matches_commits_created Z (fun z => z) (fun z => z) (fun _ => false)
              (fun _ => false) false (fun _ => false) MatchFields (fun f => Some f) (fun _ => Some 7)
              "job-7"%string "Sony"%string [w_fields] w_session [2] (snd w_psm) w_session_fresh eq_refl)
    as (_ & Hnd & _ & Hh & Hrows & _).
  split; [exact Hnd|]. split; [exact Hh|]. apply Hrows. left.
Defined.

Lemma process_matches_loop_after_failed_flush_witness :
  let '(r, s') := process_matches_loop (fun z : Z => z) (fun _ => false) (fun _ => false)
                    (fun _ => false) (fun f : MatchFields => Some f) (fun _ => Some 7)
                    "job-7"%string "Sony"%string [w_fields] [] (set_tx_failed w_session) in
  r = Ok [] /\ tx_failed s' = true /\ tx s' = tx w_session /\ bus s' = [] /\
  committed s' = committed w_session.
Proof.
  exact (process_matches_loop_after_failed_flush Z (fun z => z) (fun z => z) (fun _ => false)
           (fun _ => false) (fun _ => false) MatchFields (fun f => Some f) (fun _ => Some 7)
           "job-7"%string "Sony"%string [w_fields] [] (set_tx_failed w_session) eq_refl).
Defined.


(* ------------------------------------------------------------------ *)
(** ** The search rotation and the scrape entry points *)

Lemma select_first_by_id_none (p : RotationRow -> bool) (tbl : list RotationRow) :
  select_first_by_id p tbl = None <-> Forall (fun r => p r = false) tbl.
Proof.
  induction tbl as [|r rs IH]; cbn [select_first_by_id].
  - split; [constructor | reflexivity].
  - rewrite Forall_cons. destruct (p r) eqn:Hp.
    + destruct (select_first_by_id p rs); [destruct (Nat.ltb _ _)|]; split; intros H;
        try discriminate; destruct H; discriminate.
    + rewrite IH. intuition.
Qed.

Lemma select_first_by_id_some (p : RotationRow -> bool) (tbl : list RotationRow) (n : RotationRow) :
  select_first_by_id p tbl = Some n ->
  In n tbl /\ p n = true /\ forall r, In r tbl -> p r = true -> sr_id n <= sr_id r.
Proof.
  revert n; induction tbl as [|r rs IH]; intros n; cbn [select_first_by_id]; [discriminate|].
  destruct (p r) eqn:Hp.
  - destruct (select_first_by_id p rs) as [r'|] eqn:E.
    + destruct (IH r' eq_refl) as (Hin & Hp' & Hmin).
      destruct (Nat.ltb_spec (sr_id r') (sr_id r)); intros [= <-].
      * split; [right; exact Hin|]. split; [exact Hp'|].
        intros x [<-|Hx] Hpx; [lia | exact (Hmin x Hx Hpx)].
      * split; [left; reflexivity|]. split; [exact Hp|].
        intros x [<-|Hx] Hpx; [lia|]. specialize (Hmin x Hx Hpx). lia.
    + intros [= <-]. split; [left; reflexivity|]. split; [exact Hp|].
      apply select_first_by_id_none in E. rewrite List.Forall_forall in E.
      intros x [<-|Hx] Hpx; [lia|]. rewrite (E x Hx) in Hpx. discriminate.
  - intros Hn. destruct (IH n Hn) as (Hin & Hp' & Hmin).
    split; [right; exact Hin|]. split; [exact Hp'|].
    intros x [<-|Hx] Hpx; [congruence | exact (Hmin x Hx Hpx)].
Qed.

Lemma select_first_by_id_ext (p q : RotationRow -> bool) (tbl : list RotationRow) :
  (forall r, In r tbl -> p r = q r) ->
  select_first_by_id p tbl = select_first_by_id q tbl.
Proof.
  induction tbl as [|r rs IH]; intros H; cbn [select_first_by_id]; [reflexivity|].
  rewrite (H r (or_introl eq_refl)), IH; [reflexivity|].
  intros x Hx; apply H; right; exact Hx.
Qed.

Lemma select_first_by_id_map (g : RotationRow -> RotationRow) (p : RotationRow -> bool)
    (tbl : list RotationRow) :
  (forall r, sr_id (g r) = sr_id r) ->
  select_first_by_id p (map g tbl) = option_map g (select_first_by_id (fun r => p (g r)) tbl).
Proof.
  intros Hg; induction tbl as [|r rs IH]; cbn [select_first_by_id map]; [reflexivity|].
  rewrite IH. destruct (p (g r)); [|reflexivity].
  destruct (select_first_by_id _ rs) as [r'|]; cbn [option_map]; [|reflexivity].
  rewrite !Hg. destruct (Nat.ltb (sr_id r') (sr_id r)); reflexivity.
Qed.

Lemma forall2_map_self {A B} (R : A -> B -> Prop) (F : A -> B) (l : list A) :
  (forall x, In x l -> R x (F x)) -> Forall2 R l (map F l).
Proof.
  induction l as [|x l IH]; intros H; constructor.
  - apply H; left; reflexivity.
  - apply IH; intros y Hy; apply H; right; exact Hy.
Qed.

Lemma rotation_stamp_table (now : Z) (n : RotationRow) (g : RotationRow -> RotationRow)
    (tbl : list RotationRow)
    (Hg : forall r, sr_id (g r) = sr_id r /\ sr_brand (g r) = sr_brand r /\
                    sr_search_term (g r) = sr_search_term r /\ sr_enabled (g r) = sr_enabled r /\
                    sr_last_searched_at (g r) = sr_last_searched_at r /\
                    sr_updated_at (g r) = sr_updated_at r)
    (Hcur : forall r, In r tbl -> sr_id r <> sr_id n -> current_search_row (g r) = false) :
  Forall2 (fun r r' =>
      sr_id r' = sr_id r /\ sr_brand r' = sr_brand r /\
      sr_search_term r' = sr_search_term r /\ sr_enabled r' = sr_enabled r /\
      (if Nat.eqb (sr_id r) (sr_id n)
       then sr_last_searched r' = true /\ sr_last_searched_at r' = Some now /\
            sr_updated_at r' = Some now
       else sr_last_searched_at r' = sr_last_searched_at r /\
            sr_updated_at r' = sr_updated_at r))
    tbl (update_where_id (sr_id n) (stamp_searched now) (map g tbl)) /\
  (forall r', In r' (update_where_id (sr_id n) (stamp_searched now) (map g tbl)) ->
     current_search_row r' = true <-> sr_id r' = sr_id n /\ sr_enabled r' = true).
Proof.
  unfold update_where_id. rewrite map_map. split.
  - apply forall2_map_self. intros r _.
    destruct (Hg r) as (Hi & Hb & Ht & He & Ha & Hu). rewrite Hi.
    destruct (Nat.eqb (sr_id r) (sr_id n)); cbn; intuition.
  - intros r' Hr'. apply in_map_iff in Hr' as (r & <- & Hin).
    destruct (Hg r) as (Hi & Hb & Ht & He & Ha & Hu). rewrite Hi.
    destruct (Nat.eqb_spec (sr_id r) (sr_id n)) as [Heq|Hne].
    + unfold current_search_row; cbn. rewrite Hi, He. intuition.
    + rewrite (Hcur r Hin Hne), Hi. intuition; discriminate.
Qed.

Lemma get_next_search_none_spec (now : Z) (tbl : list RotationRow) :
  let (r, t') := get_next_search now tbl in
  (r = Ok None <-> Forall (fun x => sr_enabled x = false) tbl) /\ (r = Ok None -> t' = tbl).
Proof.
  unfold get_next_search; cbv [mbind ST_bind st_bind st_get st_put st_ret].
  set (cur := select_limit1 current_search_row tbl).
  set (tbl1 := match cur with
               | Some c => update_where_id (sr_id c) (set_last_searched false) tbl
               | None => tbl
               end).
  assert (Hen : Forall (fun x => sr_enabled x = false) tbl1 <->
                Forall (fun x => sr_enabled x = false) tbl).
  { subst tbl1; destruct cur; [|reflexivity]. unfold update_where_id.
    rewrite List.Forall_map. apply Forall_iff. intros x.
    destruct (Nat.eqb _ _); reflexivity. }
  destruct (select_first_by_id _ tbl1) as [n|] eqn:E1.
  - apply select_first_by_id_some in E1 as (Hin & Hp & _).
    cbv beta in Hp. apply andb_prop in Hp as [Hn _].
    split; [split; [discriminate|] | discriminate].
    intros Hf. apply Hen in Hf. rewrite List.Forall_forall in Hf.
    rewrite (Hf n Hin) in Hn. discriminate.
  - destruct (select_first_by_id sr_enabled tbl1) as [n|] eqn:E2.
    + apply select_first_by_id_some in E2 as (Hin & Hn & _).
      split; [split; [discriminate|] | discriminate].
      intros Hf. apply Hen in Hf. rewrite List.Forall_forall in Hf.
      rewrite (Hf n Hin) in Hn. discriminate.
    + split; [split; [intros _ | reflexivity] | reflexivity].
      apply Hen, select_first_by_id_none, E2.
Qed.

(** X20: When every current row has the same id, [get_next_search] picks the
    enabled row with the smallest id above the current one, or wraps to the
    smallest enabled id; afterwards the current rows are exactly the enabled
    rows with the chosen id, which are stamped with [now]. *)
Theorem get_next_search_rotates (now : Z) (tbl t' : list RotationRow) (b s : string)
    (Hone : forall r1 r2, In r1 tbl -> In r2 tbl ->
            current_search_row r1 = true -> current_search_row r2 = true ->
            sr_id r1 = sr_id r2)
    (Hrun : get_next_search now tbl = (Ok (Some (b, s)), t')) :
  exists n, In n tbl /\ sr_enabled n = true /\
    b = sr_brand n /\ s = search_term_or_brand n /\
    (select_limit1 current_search_row tbl = None ->
       forall r, In r tbl -> sr_enabled r = true -> sr_id n <= sr_id r) /\
    (forall c, select_limit1 current_search_row tbl = Some c ->
       (sr_id c < sr_id n /\
        forall r, In r tbl -> sr_enabled r = true -> sr_id c < sr_id r -> sr_id n <= sr_id r) \/
       ((forall r, In r tbl -> sr_enabled r = true -> sr_id r <= sr_id c) /\
        forall r, In r tbl -> sr_enabled r = true -> sr_id n <= sr_id r)) /\
    Forall2 (fun r r' =>
        sr_id r' = sr_id r /\ sr_brand r' = sr_brand r /\
        sr_search_term r' = sr_search_term r /\ sr_enabled r' = sr_enabled r /\
        (if Nat.eqb (sr_id r) (sr_id n)
         then sr_last_searched r' = true /\ sr_last_searched_at r' = Some now /\
              sr_updated_at r' = Some now
         else sr_last_searched_at r' = sr_last_searched_at r /\
              sr_updated_at r' = sr_updated_at r))
      tbl t' /\
    (forall r', In r' t' -> current_search_row r' = true <-> sr_id r' = sr_id n /\ sr_enabled r' = true).
Proof.
  unfold get_next_search in Hrun; cbv [mbind ST_bind st_bind st_get st_put st_ret] in Hrun.
  destruct (select_limit1 current_search_row tbl) as [c|] eqn:Ec.
  - (* a current search: it is reset, then the next enabled id above it *)
    pose proof Ec as Ec'. unfold select_limit1 in Ec'.
    apply List.find_some in Ec' as [Hcin Hccur].
    set (g := fun r => if Nat.eqb (sr_id r) (sr_id c) then set_last_searched false r else r) in *.
    assert (Hg : forall r, sr_id (g r) = sr_id r /\ sr_brand (g r) = sr_brand r /\
                    sr_search_term (g r) = sr_search_term r /\ sr_enabled (g r) = sr_enabled r /\
                    sr_last_searched_at (g r) = sr_last_searched_at r /\
                    sr_updated_at (g r) = sr_updated_at r).
    { intros r; subst g; cbv beta; destruct (Nat.eqb _ _); cbn; intuition. }
    assert (Htbl1 : update_where_id (sr_id c) (set_last_searched false) tbl = map g tbl)
      by reflexivity.
    rewrite Htbl1 in Hrun.
    rewrite !(select_first_by_id_map g) in Hrun by (intros r; apply Hg).
    set (q := fun r => sr_enabled r && Nat.ltb (sr_id c) (sr_id r)).
    rewrite (select_first_by_id_ext _ q) in Hrun.
    2:{ intros r Hr. subst g q; cbv beta.
        destruct (Nat.eqb_spec (sr_id r) (sr_id c)) as [Heq|Hne].
        - cbn. reflexivity.
        - destruct (sr_enabled r) eqn:He; [|reflexivity]. cbv beta iota.
          destruct (Nat.ltb_spec (sr_id c) (sr_id r)); [|rewrite andb_false_r; reflexivity].
          destruct (sr_last_searched r) eqn:Hl; [|reflexivity].
          exfalso. apply Hne. apply (Hone r c Hr Hcin); [|exact Hccur].
          unfold current_search_row. rewrite Hl, He. reflexivity. }
    rewrite (select_first_by_id_ext (fun r => sr_enabled (g r)) sr_enabled) in Hrun
      by (intros r _; apply Hg).
    assert (Hcur : forall r, In r tbl -> current_search_row (g r) = true -> sr_id r = sr_id c).
    { intros r Hr. subst g; cbv beta.
      destruct (Nat.eqb_spec (sr_id r) (sr_id c)) as [Heq|Hne]; [intros _; exact Heq|].
      intros Hrc. exact (Hone r c Hr Hcin Hrc Hccur). }
    destruct (select_first_by_id q tbl) as [n|] eqn:E1; cbn [option_map] in Hrun.
    + apply select_first_by_id_some in E1 as (Hin & Hq & Hmin).
      subst q; cbv beta in Hq, Hmin. apply andb_prop in Hq as [Hen Hlt].
      apply Nat.ltb_lt in Hlt.
      injection Hrun as Hb Hs Ht. subst t'.
      destruct (Hg n) as (Hi & Hbr & Hst & _).
      exists n. split; [exact Hin|]. split; [exact Hen|].
      split; [rewrite <- Hb; exact Hbr|].
      split; [rewrite <- Hs; unfold search_term_or_brand; rewrite Hst, Hbr; reflexivity|].
      split; [discriminate|].
      split.
      { intros c' [= <-]. left. split; [exact Hlt|].
        intros r Hr Her Hcr. apply Hmin; [exact Hr|]. rewrite Her. apply Nat.ltb_lt, Hcr. }
      rewrite Hi. apply rotation_stamp_table; [exact Hg|].
      intros r Hr Hne. destruct (current_search_row (g r)) eqn:Hrc; [|reflexivity].
      exfalso. pose proof (Hcur r Hr Hrc) as Hrid.
      (* g r is current only if r has the id of c, whose rows were reset *)
      subst g; cbv beta in Hrc. rewrite Hrid, Nat.eqb_refl in Hrc. cbn in Hrc.
      unfold current_search_row in Hrc. cbn in Hrc. discriminate.
    + destruct (select_first_by_id sr_enabled tbl) as [n|] eqn:E2; cbn [option_map] in Hrun;
        [|discriminate].
      apply select_first_by_id_some in E2 as (Hin & Hen & Hmin).
      apply select_first_by_id_none in E1. rewrite List.Forall_forall in E1.
      injection Hrun as Hb Hs Ht. subst t'.
      destruct (Hg n) as (Hi & Hbr & Hst & _).
      exists n. split; [exact Hin|]. split; [exact Hen|].
      split; [rewrite <- Hb; exact Hbr|].
      split; [rewrite <- Hs; unfold search_term_or_brand; rewrite Hst, Hbr; reflexivity|].
      split; [discriminate|].
      split.
      { intros c' [= <-]. right. split; [|exact Hmin].
        intros r Hr Her. specialize (E1 r Hr). subst q; cbv beta in E1.
        rewrite Her in E1. cbn in E1. apply Nat.ltb_ge in E1. exact E1. }
      rewrite Hi. apply rotation_stamp_table; [exact Hg|].
      intros r Hr Hne. destruct (current_search_row (g r)) eqn:Hrc; [|reflexivity].
      exfalso. pose proof (Hcur r Hr Hrc) as Hrid.
      subst g; cbv beta in Hrc. rewrite Hrid, Nat.eqb_refl in Hrc. cbn in Hrc.
      unfold current_search_row in Hrc. cbn in Hrc. discriminate.
  - (* no current search: the smallest enabled id *)
    pose proof Ec as Ec'. unfold select_limit1 in Ec'.
    pose proof (List.find_none _ _ Ec') as Hnone.
    rewrite (select_first_by_id_ext _ sr_enabled) in Hrun
      by (intros r _; apply andb_true_r).
    destruct (select_first_by_id sr_enabled tbl) as [n|] eqn:E1; [|discriminate].
    apply select_first_by_id_some in E1 as (Hin & Hen & Hmin).
    injection Hrun as Hb Hs Ht. subst t' b s.
    exists n. split; [exact Hin|]. split; [exact Hen|].
    split; [reflexivity|]. split; [reflexivity|].
    split; [intros _; exact Hmin|].
    split; [discriminate|].
    pose proof (rotation_stamp_table now n (fun r => r) tbl) as Hst.
    rewrite map_id in Hst. apply Hst; [intros r; intuition|].
    intros r Hr _. exact (Hnone r Hr).
Qed.

(** X19: [get_next_search] returns [None] exactly when no row is enabled, and then
    leaves the table as it was (the reset of the current row is rolled back). *)
Theorem get_next_search_none (now : Z) (tbl : list RotationRow) :
  let (r, t') := get_next_search now tbl in
  (r = Ok None <-> Forall (fun x => sr_enabled x = false) tbl) /\ (r = Ok None -> t' = tbl).
Proof. exact (get_next_search_none_spec now tbl). Qed.

Lemma get_next_search_ok (now : Z) (tbl : list RotationRow) :
  exists r t, get_next_search now tbl = (Ok r, t).
Proof.
  unfold get_next_search; cbv [mbind ST_bind st_bind st_get st_put st_ret].
  repeat case_match; eauto.
Qed.

Section ScrapeProofs.

Variable parse_json : string -> option Json.
Variable start_fails : bool.
Variable start_scrape : Json -> Json -> option (nat * string).

Local Abbreviation tsc := (trigger_scrape parse_json start_fails start_scrape).
Local Abbreviation launch := (trigger_launch start_fails start_scrape).
Local Abbreviation sched := (scheduled_scrape start_fails start_scrape).

Lemma rotation_next_eq (w : ScrapeWorld) :
  rotation_next w =
  (fst (get_next_search (sw_now w) (sw_rotation w)),
   set_rotation (snd (get_next_search (sw_now w) (sw_rotation w))) w).
Proof.
  unfold rotation_next; cbv [mbind ST_bind st_bind st_get st_put st_ret st_raise].
  destruct (get_next_search_ok (sw_now w) (sw_rotation w)) as (r & t & ->).
  reflexivity.
Qed.

Lemma trigger_launch_eq (payload B S : Json) (w : ScrapeWorld) :
  launch payload B S w =
  if start_fails then (Ok TrStartFailed, emit SeStartContainer w)
  else
    let w2 := emit (SeStartScrape B (json_or S B)) (emit SeSleep30 (emit SeStartContainer w)) in
    match start_scrape B (json_or S B) with
    | None => (Ok TrTriggerFailed, w2)
    | Some (job, st) =>
        (match py_get payload "brand"%string with
         | Some b => Ok (TrStarted job st B S
                           (if json_truthy b then "manual"%string else "rotation"%string))
         | None => Ok TrTriggerFailed
         end, emit (SeSpawnPoller job B S) w2)
    end.
Proof.
  unfold trigger_launch, coordinator_trigger;
    cbv [mbind ST_bind st_bind st_get st_put st_ret st_modify].
  destruct start_fails; [reflexivity|].
  destruct (start_scrape B (json_or S B)) as [[job st]|]; [|reflexivity].
  destruct (py_get payload "brand"%string); reflexivity.
Qed.

Lemma trigger_launch_payload (p p' : Json) (b b' B S : Json) (w : ScrapeWorld) :
  py_get p "brand"%string = Some b -> py_get p' "brand"%string = Some b' ->
  json_truthy b = json_truthy b' ->
  launch p B S w = launch p' B S w.
Proof.
  intros Hb Hb' Ht. rewrite !trigger_launch_eq, Hb, Hb', Ht. reflexivity.
Qed.

Lemma trigger_scrape_empty_eq (w : ScrapeWorld) :
  tsc ""%string w =
  match get_next_search (sw_now w) (sw_rotation w) with
  | (Ok None, t) => (Ok TrNoRotation, set_rotation t w)
  | (Ok (Some (b, s)), t) => launch (JObj []) (JStr b) (JStr s) (set_rotation t w)
  | (Err e, _) => (Err e, w)
  end.
Proof.
  unfold trigger_scrape. rewrite bool_decide_eq_true_2 by reflexivity. cbn [py_get].
  cbv [mbind ST_bind st_bind st_ret]. cbn [json_truthy negb].
  cbn [rev List.find json_truthy negb].
  rewrite rotation_next_eq.
  destruct (get_next_search_ok (sw_now w) (sw_rotation w)) as (r & t & ->).
  destruct r as [[b s]|]; reflexivity.
Qed.

(** X21: A body that is not JSON, or whose "brand" is falsy, runs [trigger_scrape]
    exactly as an empty body does. *)
Theorem trigger_scrape_like_empty_body (body : string) (w : ScrapeWorld)
    (Hfalsy : parse_json body = None \/
              exists p b, parse_json body = Some p /\ py_get p "brand"%string = Some b /\
                          json_truthy b = false) :
  tsc body w = tsc ""%string w.
Proof.
  destruct (decide (body = ""%string)) as [->|Hne]; [reflexivity|].
  rewrite trigger_scrape_empty_eq. unfold trigger_scrape.
  rewrite bool_decide_eq_false_2 by exact Hne.
  cbv [mbind ST_bind st_bind st_ret].
  destruct Hfalsy as [Hnone | (p & b & Hp & Hb & Hf)].
  - rewrite Hnone. cbn [py_get rev List.find json_truthy negb]. rewrite rotation_next_eq.
    destruct (get_next_search_ok (sw_now w) (sw_rotation w)) as (r & t & ->).
    destruct r as [[b s]|]; reflexivity.
  - rewrite Hp, Hb.
    destruct p as [| | | | |kvs]; try discriminate.
    cbn [py_get]. rewrite Hf. cbn [negb]. rewrite rotation_next_eq.
    destruct (get_next_search_ok (sw_now w) (sw_rotation w)) as (r & t & ->).
    destruct r as [[b' s]|]; [|reflexivity].
    cbn [fst snd]. apply (trigger_launch_payload _ _ b JNull); [exact Hb|reflexivity|exact Hf].
Qed.


Lemma trigger_launch_outcome (payload B S : Json) (w0 : ScrapeWorld) (pb : Json)
    (Hp : py_get payload "brand"%string = Some pb) :
  let (r, w') := launch payload B S w0 in
  sw_rotation w' = sw_rotation w0 /\ sw_now w' = sw_now w0 /\
  match r with
  | Ok TrStartFailed =>
      start_fails = true /\ sw_effects w' = sw_effects w0 ++ [SeStartContainer]
  | Ok TrTriggerFailed =>
      start_fails = false /\ start_scrape B (json_or S B) = None /\
      sw_effects w' = sw_effects w0 ++ [SeStartContainer; SeSleep30; SeStartScrape B (json_or S B)]
  | Ok (TrStarted job st b s src) =>
      start_fails = false /\ b = B /\ s = S /\
      src = (if json_truthy pb then "manual"%string else "rotation"%string) /\
      start_scrape B (json_or S B) = Some (job, st) /\
      sw_effects w' = sw_effects w0 ++
        [SeStartContainer; SeSleep30; SeStartScrape B (json_or S B); SeSpawnPoller job B S]
  | _ => False
  end.
Proof.
  rewrite trigger_launch_eq. destruct start_fails.
  - cbn. auto.
  - cbv zeta. destruct (start_scrape B (json_or S B)) as [[job st]|] eqn:E.
    + rewrite Hp. cbn. rewrite <- !app_assoc. cbn. intuition.
    + cbn. rewrite <- !app_assoc. cbn. intuition.
Qed.


(** X22: A JSON body that is not an object makes [trigger_scrape] raise before
    any effect. *)
Theorem trigger_scrape_rejects_non_dict (body : string) (w : ScrapeWorld) (p : Json)
    (Hne : body <> ""%string) (Hp : parse_json body = Some p)
    (Hnd : py_get p "brand"%string = None) :
  tsc body w = (Err PortError, w).
Proof.
  unfold trigger_scrape. rewrite bool_decide_eq_false_2 by exact Hne.
  rewrite Hp, Hnd. reflexivity.
Qed.

(** X23: The effects behind each response of [trigger_scrape]: a poller is
    spawned exactly on 200. *)
Theorem trigger_scrape_outcomes (body : string) (w : ScrapeWorld) :
  let (r, w') := tsc body w in
  sw_now w' = sw_now w /\
  match r with
  | Err _ => w' = w
  | Ok TrNoRotation =>
      sw_effects w' = sw_effects w /\ sw_rotation w' = sw_rotation w /\
      Forall (fun x => sr_enabled x = false) (sw_rotation w)
  | Ok TrStartFailed =>
      start_fails = true /\ sw_effects w' = sw_effects w ++ [SeStartContainer]
  | Ok TrTriggerFailed =>
      start_fails = false /\
      exists b s, start_scrape b (json_or s b) = None /\
        sw_effects w' = sw_effects w ++ [SeStartContainer; SeSleep30; SeStartScrape b (json_or s b)]
  | Ok (TrStarted job st b s _) =>
      start_fails = false /\ start_scrape b (json_or s b) = Some (job, st) /\
      sw_effects w' = sw_effects w ++
        [SeStartContainer; SeSleep30; SeStartScrape b (json_or s b); SeSpawnPoller job b s]
  end.
Proof.
  assert (Hrot : forall p pb, py_get p "brand"%string = Some pb ->
    let (r, w') :=
      (fun s : ScrapeWorld =>
         let (r, s') := rotation_next s in
         match r with
         | Ok a => match a with
                   | Some (b, s0) => launch p (JStr b) (JStr s0)
                   | None => fun s0 : ScrapeWorld => (Ok TrNoRotation, s0)
                   end s'
         | Err e => (Err e, s')
         end) w in
    sw_now w' = sw_now w /\
    match r with
    | Err _ => w' = w
    | Ok TrNoRotation =>
        sw_effects w' = sw_effects w /\ sw_rotation w' = sw_rotation w /\
        Forall (fun x => sr_enabled x = false) (sw_rotation w)
    | Ok TrStartFailed =>
        start_fails = true /\ sw_effects w' = sw_effects w ++ [SeStartContainer]
    | Ok TrTriggerFailed =>
        start_fails = false /\
        exists b s, start_scrape b (json_or s b) = None /\
          sw_effects w' = sw_effects w ++ [SeStartContainer; SeSleep30; SeStartScrape b (json_or s b)]
    | Ok (TrStarted job st b s _) =>
        start_fails = false /\ start_scrape b (json_or s b) = Some (job, st) /\
        sw_effects w' = sw_effects w ++
          [SeStartContainer; SeSleep30; SeStartScrape b (json_or s b); SeSpawnPoller job b s]
    end).
  { intros p pb Hp. cbv beta. rewrite rotation_next_eq.
    pose proof (get_next_search_none_spec (sw_now w) (sw_rotation w)) as Hnone.
    destruct (get_next_search_ok (sw_now w) (sw_rotation w)) as (r & t & Hg).
    rewrite Hg in Hnone |- *. cbn [fst snd].
    destruct r as [[b s]|].
    - pose proof (trigger_launch_outcome p (JStr b) (JStr s) (set_rotation t w) pb Hp) as Hl.
      destruct (launch p (JStr b) (JStr s) (set_rotation t w)) as [r w'].
      destruct Hl as (_ & Hnow & Hl). split; [exact Hnow|].
      destruct r as [[| | |job st b' s' src]|e]; try contradiction; cbn in Hl |- *.
      + exact Hl.
      + destruct Hl as (Hf & Hs & He). split; [exact Hf|].
        exists (JStr b), (JStr s). split; assumption.
      + destruct Hl as (Hf & -> & -> & _ & Hs & He). split; [exact Hf|]. split; assumption.
    - destruct Hnone as [[Hn _] Ht]. specialize (Ht eq_refl). subst t.
      destruct w; cbn. intuition. }
  unfold trigger_scrape. cbv [mbind ST_bind st_bind st_ret st_raise].
  destruct (if bool_decide (body = ""%string) then Some (JObj []) else parse_json body)
    as [p|].
  - destruct (py_get p "brand"%string) as [b|] eqn:Hb;
      [destruct (py_get p "search_term"%string) as [st|]|]; cbv iota;
      [|split; reflexivity|split; reflexivity].
    destruct (json_truthy b) eqn:Htb; cbn [negb].
    + pose proof (trigger_launch_outcome p b (json_or st b) w b Hb) as Hl.
      destruct (launch p b (json_or st b) w) as [r w'].
      destruct Hl as (Hrot' & Hnow & Hl). split; [exact Hnow|].
      destruct r as [[| | |job st' b' s' src]|e]; try contradiction.
      * exact Hl.
      * destruct Hl as (Hf & Hs & He). split; [exact Hf|].
        exists b, (json_or st b). split; assumption.
      * destruct Hl as (Hf & -> & -> & _ & Hs & He). split; [exact Hf|]. split; assumption.
    + exact (Hrot p b Hb).
  - exact (Hrot (JObj []) JNull eq_refl).
Qed.


(** X24: A started scrape reports "manual" exactly when the body's brand was
    used (the rotation is then untouched), "rotation" otherwise. *)
Theorem trigger_scrape_started_source (body : string) (w w' : ScrapeWorld)
    (job : nat) (st : string) (b s : Json) (src : string)
    (Hrun : tsc body w = (Ok (TrStarted job st b s src), w')) :
  (src = "manual"%string /\ json_truthy b = true /\ sw_rotation w' = sw_rotation w /\
   body <> ""%string /\
   exists p st0, parse_json body = Some p /\ py_get p "brand"%string = Some b /\
                 py_get p "search_term"%string = Some st0 /\ s = json_or st0 b) \/
  (src = "rotation"%string /\
   exists bs ss, b = JStr bs /\ s = JStr ss /\
                 get_next_search (sw_now w) (sw_rotation w) = (Ok (Some (bs, ss)), sw_rotation w')).
Proof.
  assert (Hrot : forall p pb, py_get p "brand"%string = Some pb -> json_truthy pb = false ->
    (fun s : ScrapeWorld =>
       let (r, s') := rotation_next s in
       match r with
       | Ok a => match a with
                 | Some (b, s0) => launch p (JStr b) (JStr s0)
                 | None => fun s0 : ScrapeWorld => (Ok TrNoRotation, s0)
                 end s'
       | Err e => (Err e, s')
       end) w = (Ok (TrStarted job st b s src), w') ->
    src = "rotation"%string /\
    exists bs ss, b = JStr bs /\ s = JStr ss /\
                  get_next_search (sw_now w) (sw_rotation w) = (Ok (Some (bs, ss)), sw_rotation w')).
  { intros p pb Hp Hf Hr. cbv beta in Hr. rewrite rotation_next_eq in Hr.
    destruct (get_next_search_ok (sw_now w) (sw_rotation w)) as (r & t & Hg).
    rewrite Hg in Hr |- *. cbn [fst snd] in Hr.
    destruct r as [[bs ss]|]; [|discriminate].
    pose proof (trigger_launch_outcome p (JStr bs) (JStr ss) (set_rotation t w) pb Hp) as Hl.
    rewrite Hr in Hl. destruct Hl as (Ht & _ & _ & -> & -> & Hsrc & _).
    rewrite Hf in Hsrc. split; [exact Hsrc|]. exists bs, ss.
    split; [reflexivity|]. split; [reflexivity|]. rewrite Ht. reflexivity. }
  unfold trigger_scrape in Hrun. cbv [mbind ST_bind st_bind st_ret st_raise] in Hrun.
  destruct (bool_decide (body = ""%string)) eqn:Hbe.
  - right. exact (Hrot (JObj []) JNull eq_refl eq_refl Hrun).
  - apply bool_decide_eq_false_1 in Hbe.
    destruct (parse_json body) as [p|] eqn:Hp.
    + destruct (py_get p "brand"%string) as [b0|] eqn:Hb;
        [destruct (py_get p "search_term"%string) as [st0|] eqn:Hst|]; cbv iota in Hrun;
        try discriminate.
      destruct (json_truthy b0) eqn:Ht; cbn [negb] in Hrun.
      * pose proof (trigger_launch_outcome p b0 (json_or st0 b0) w b0 Hb) as Hl.
        rewrite Hrun in Hl. destruct Hl as (Hr & _ & _ & -> & -> & Hsrc & _).
        rewrite Ht in Hsrc. left. split; [exact Hsrc|]. split; [exact Ht|].
        split; [exact Hr|]. split; [exact Hbe|].
        exists p, st0. split; [reflexivity|]. split; [exact Hb|]. split; [exact Hst|].
        reflexivity.
      * right. exact (Hrot p b0 Hb Ht Hrun).
    + right. exact (Hrot (JObj []) JNull eq_refl eq_refl Hrun).
Qed.


End ScrapeProofs.

(** A rotation of three searches: Canon ran last, Nikon is disabled. *)
Definition w_rot_table : list RotationRow :=
  [mkRotationRow 1 "Sony" (Some "Sony A7") true false None None;
   mkRotationRow 2 "Canon" None true true (Some 5%Z) (Some 5%Z);
   mkRotationRow 3 "Nikon" (Some "") false false None None]%string.

Definition w_world : ScrapeWorld := mkScrapeWorld w_rot_table [] 100.

Lemma get_next_search_rotates_witness :
  exists n, In n w_rot_table /\ sr_id n = 1 /\ sr_enabled n = true /\
    search_term_or_brand n = "Sony A7"%string.
Proof.
  destruct (get_next_search_rotates 100 w_rot_table
              (snd (get_next_search 100 w_rot_table)) "Sony"%string "Sony A7"%string)
    as (n & Hin & Hen & Hb & Hs & _ & Hc & _).
  - intros r1 r2 H1 H2. cbn in H1, H2.
    destruct H1 as [<-|[<-|[<-|[]]]]; destruct H2 as [<-|[<-|[<-|[]]]];
      cbn; intros; try discriminate; reflexivity.
  - vm_compute. reflexivity.
  - exists n. split; [exact Hin|]. split; [|split; [exact Hen|symmetry; exact Hs]].
    destruct (Hc (mkRotationRow 2 "Canon" None true true (Some 5%Z) (Some 5%Z)) eq_refl)
      as [[Hlt Hmin]|[_ Hmin]].
    + cbn in Hin. destruct Hin as [<-|[<-|[<-|[]]]]; cbn in *; try lia; discriminate.
    + cbn in Hin. destruct Hin as [<-|[<-|[<-|[]]]]; cbn in *; [reflexivity| |discriminate].
      specialize (Hmin _ (or_introl eq_refl) eq_refl). cbn in Hmin. lia.
Defined.

Lemma trigger_scrape_like_empty_body_witness :
  trigger_scrape (fun _ => Some (JObj [("brand", JStr ""); ("search_term", JStr "A7")]%string))
    false (fun _ _ => Some (7, "queued"%string)) "{brand: empty}"%string w_world =
  trigger_scrape (fun _ => Some (JObj [("brand", JStr ""); ("search_term", JStr "A7")]%string))
    false (fun _ _ => Some (7, "queued"%string)) ""%string w_world.
Proof.
  apply trigger_scrape_like_empty_body. right.
  exists (JObj [("brand", JStr ""); ("search_term", JStr "A7")]%string), (JStr "").
  split; [reflexivity|]. split; reflexivity.
Defined.

Lemma trigger_scrape_rejects_non_dict_witness :
  trigger_scrape (fun _ => Some (JArr [JNum 1])) false (fun _ _ => Some (7, "queued"%string))
    "[1]"%string w_world = (Err PortError, w_world).
Proof.
  apply (trigger_scrape_rejects_non_dict _ _ _ "[1]"%string w_world (JArr [JNum 1]));
    [discriminate | reflexivity | reflexivity].
Defined.

Lemma trigger_scrape_started_source_witness :
  sw_rotation (snd (trigger_scrape (fun _ => Some (JObj [("brand", JStr "Sony")]%string)) false
                      (fun _ _ => Some (7, "queued"%string)) "{brand: Sony}"%string w_world))
  = w_rot_table.
Proof.
  destruct (trigger_scrape_started_source (fun _ => Some (JObj [("brand", JStr "Sony")]%string)) false
              (fun _ _ => Some (7, "queued"%string)) "{brand: Sony}"%string w_world
              (snd (trigger_scrape (fun _ => Some (JObj [("brand", JStr "Sony")]%string)) false
                      (fun _ _ => Some (7, "queued"%string)) "{brand: Sony}"%string w_world))
              7 "queued"%string (JStr "Sony") (JStr "Sony") "manual"%string)
    as [(_ & _ & Hr & _)|(Hsrc & _)].
  - vm_compute. reflexivity.
  - exact Hr.
  - discriminate Hsrc.
Defined.
